(** * boskos/gcp/config.go: the resource construction engine

    A shallow embedding of [resourceConfigs.construct] and of the helpers it
    is built from ([stringRing], [popProject], the errgroup fan-out, the
    result channel and the aggregation loop), followed by the properties of
    the provisioning run.

    Conventions of the embedding:
    - a Go map is a reference: the maps live in a [heap] and a variable of
      map type holds a location, so that [typesCopy := types] is an alias;
    - [range rc] visits a Go map in an order chosen by the runtime: a request
      is given as the list of its entries in the order the run visits them;
    - a runtime panic and a goroutine blocked for ever are outcomes of their
      own ([Panicked], [Blocked]), never confused with a returned error;
    - the cloud clients behind [gcpClient] are collaborators: a [Client]
      packs their answers, as functions of the moment of the call. *)

From stdpp Require Import gmap strings list fin_maps.

Open Scope string_scope.
Open Scope list_scope.
Open Scope nat_scope.

Module Gcp.

(** ** Constants *)

Definition ResourceConfigType : string := "GCPResourceConfig".
Definition maxChannels : nat := 100.

(** ** Data model *)

(** [common.Resource] (sigs.k8s.io/boskos/common); [construct] reads [Name]. *)
Record Resource := mkResource {
  ResType : string;
  ResName : string;
  ResState : string;
  ResOwner : string
}.

(** [clusterConfig] and [virtualMachineConfig] are declared next to the
    cluster and VM clients; [construct] reads and writes their [Zone] and
    hands the rest, untouched, to the creators. *)
Record clusterConfig := mkCluster { clZone : string; clRest : string }.
Record virtualMachineConfig := mkVm { vmZone : string; vmRest : string }.

Record projectConfig := mkProjectConfig {
  pcClusters : list clusterConfig;
  pcVms : list virtualMachineConfig
}.

(** [resourceConfigs], as the entries [range rc] yields, in that order. *)
Definition resourceConfigs := list (string * list projectConfig).

Record InstanceInfo := mkInstance { Name : string; Zone : string }.

Record ProjectInfo := mkProjectInfo {
  Clusters : list InstanceInfo;
  VMs : list InstanceInfo
}.

Abbreviation ResourceInfo := (gmap string ProjectInfo).

(** [common.UserData]: the objects stored under their keys. *)
Abbreviation UserData := (gmap string ResourceInfo).

(** Errors: the two built in [construct] with [fmt.Errorf], and the ones
    handed back by a collaborator. *)
Inductive error :=
  | ErrClientNotSet
  | ErrRunningOutOfProject
  | ErrExternal (msg : string).

(** [com]: what a goroutine sends to the aggregation loop. The two pointers
    are options. *)
Record com := mkCom {
  p : string;
  ci : option InstanceInfo;
  vmi : option InstanceInfo
}.

(** ** stringRing

    The cursor is an [int] that stays between 0 and the length of the list:
    a natural number. *)

Record stringRing := mkRing { index : nat; values : list string }.

(** [next]: [None] is the index-out-of-range panic of [r.values[r.index]]. *)
Definition next (r : stringRing) : option (string * stringRing) :=
  match values r !! index r with
  | None => None
  | Some value =>
      Some (value, mkRing ((index r + 1) mod length (values r)) (values r))
  end.

Definition newStringRing (zones : list string) : stringRing :=
  mkRing 0 zones.

(** [k] successive calls of [next], collecting what they return. *)
Fixpoint nexts (k : nat) (r : stringRing) : option (list string * stringRing) :=
  match k with
  | 0 => Some ([], r)
  | S k' =>
      match next r with
      | None => None
      | Some (v, r') =>
          match nexts k' r' with
          | None => None
          | Some (vs, r'') => Some (v :: vs, r'')
          end
      end
  end.

(** ** The shared store

    [common.TypeToResources] is [map[string][]Resource]. A value of map type
    is a reference to the map object; the objects live in the heap. A location
    with no object is the nil map. *)

Abbreviation TypeToResources := (gmap string (list Resource)).
Abbreviation loc := nat (only parsing).
Abbreviation heap := (gmap loc TypeToResources).

(** [m[k]] for reading: the zero value when the key (or the map) is absent. *)
Definition mapIndex (h : heap) (m : loc) (k : string) : list Resource :=
  default [] (default ∅ (h !! m) !! k).

(** [m[k] = v]: an update of the object [m] refers to. *)
Definition mapAssign (h : heap) (m : loc) (k : string) (v : list Resource) : heap :=
  <[m := <[k := v]> (default ∅ (h !! m))]> h.

(** The closure [popProject] of [construct]; [typesCopy] is the variable it
    captures. It writes only after it has found an entry that is not empty,
    hence never into a nil map. *)
Definition popProject (typesCopy : loc) (rType : string) (h : heap)
  : option Resource * heap :=
  let l := mapIndex h typesCopy rType in
  match last l with
  | None => (None, h)
  | Some r => (Some r, mapAssign h typesCopy rType (take (length l - 1) l))
  end.

(** ** Collaborators *)

(** The context handed to a creator, seen through the moment at which the
    call completes: its position in the order in which the goroutines of the
    run finish. Whether the group is cancelled or the deadline has passed by
    then is a function of that moment. *)
Abbreviation context := nat (only parsing).

(** Modelled from the spec: the implementations of [clusterCreator] and
    [vmCreator] ([create], [listZones]) are not part of the sources at hand.
    A creator is "create(ctx, projectID, spec) -> InstanceInfo{name, zone} |
    error": its answer is an instance info or an error, never neither.
    [Client] packs the answers of the collaborators behind [gcpClient]. *)
Record Client := mkClient {
  gke_create : context → string → clusterConfig → InstanceInfo + error;
  gce_create : context → string → virtualMachineConfig → InstanceInfo + error;
  gce_listZones : string → list string + error
}.

(** What a run depends on besides its arguments: the package variable
    [gcpClient] (nil or set), the order in which the goroutines finish, and
    whether [UserData.Set] can serialise the inventory. *)
Record World := mkWorld {
  gcpClient : option Client;
  schedule : list nat;
  marshal : ResourceInfo → option error
}.

(** ** The dispatch loop *)

(** A function handed to [errGroup.Go], with the variables it captured. *)
Inductive task :=
  | CreateCluster (project : string) (cl : clusterConfig)
  | CreateVm (project : string) (vm : virtualMachineConfig).

(** State of the sequential part of [construct]: the heap and the goroutines
    started so far, oldest first. *)
Record dstate := mkDstate { d_heap : heap; d_tasks : list task }.

(** How a statement ends: it falls through with a value, executes a
    [return nil, nil, err], or panics. *)
Inductive flow (A : Type) :=
  | Next (a : A)
  | Return (e : error)
  | Panic.
Arguments Next {A} a.
Arguments Return {A} e.
Arguments Panic {A}.

Definition M (A : Type) : Type := dstate → dstate * flow A.

Definition ret {A} (a : A) : M A := λ s, (s, Next a).

Definition bind {A B} (m : M A) (k : A → M B) : M B :=
  λ s, match m s with
       | (s', Next a) => k a s'
       | (s', Return e) => (s', Return e)
       | (s', Panic) => (s', Panic)
       end.

Notation "'let*' x ':=' m 'in' k" := (bind m (λ x, k))
  (at level 10, x pattern, m at level 100, k at level 200, only parsing).

Definition returnErr {A} (e : error) : M A := λ s, (s, Return e).
Definition panic {A} : M A := λ s, (s, Panic).

(** [errGroup.Go(f)] *)
Definition go (f : task) : M unit :=
  λ s, (mkDstate (d_heap s) (d_tasks s ++ [f]), Next tt).

Definition callPopProject (typesCopy : loc) (rType : string) : M (option Resource) :=
  λ s, let '(r, h) := popProject typesCopy rType (d_heap s) in
       (mkDstate h (d_tasks s), Next r).

(** [if x.Zone == "" { x.Zone = zoneRing.next() }]: the zone the spec ends
    with and the ring afterwards; [None] when [next] panics. *)
Definition assignZone (zone : string) (zoneRing : stringRing)
  : option (string * stringRing) :=
  if decide (zone = "") then next zoneRing else Some (zone, zoneRing).

Definition callAssignZone (zone : string) (zoneRing : stringRing)
  : M (string * stringRing) :=
  match assignZone zone zoneRing with
  | None => panic
  | Some zr => ret zr
  end.

(** [for i := range pc.Clusters { ... }] *)
Fixpoint goClusters (project : Resource) (zoneRing : stringRing)
    (cls : list clusterConfig) : M stringRing :=
  match cls with
  | [] => ret zoneRing
  | cl :: rest =>
      let* (zone, zoneRing') := callAssignZone (clZone cl) zoneRing in
      let* _ := go (CreateCluster (ResName project) (mkCluster zone (clRest cl))) in
      goClusters project zoneRing' rest
  end.

(** [for j := range pc.Vms { ... }] *)
Fixpoint goVms (project : Resource) (zoneRing : stringRing)
    (vms : list virtualMachineConfig) : M stringRing :=
  match vms with
  | [] => ret zoneRing
  | vm :: rest =>
      let* (zone, zoneRing') := callAssignZone (vmZone vm) zoneRing in
      let* _ := go (CreateVm (ResName project) (mkVm zone (vmRest vm))) in
      goVms project zoneRing' rest
  end.

(** The body of [for _, pc := range pcs]. *)
Definition goProject (c : Client) (typesCopy : loc) (rType : string)
    (pc : projectConfig) : M unit :=
  let* project := callPopProject typesCopy rType in
  match project with
  | None => returnErr ErrRunningOutOfProject
  | Some project =>
      match gce_listZones c (ResName project) with
      | inr err => returnErr err
      | inl zones =>
          let zoneRing := newStringRing zones in
          let* zoneRing := goClusters project zoneRing (pcClusters pc) in
          let* _ := goVms project zoneRing (pcVms pc) in
          ret tt
      end
  end.

Fixpoint goProjects (c : Client) (typesCopy : loc) (rType : string)
    (pcs : list projectConfig) : M unit :=
  match pcs with
  | [] => ret tt
  | pc :: rest =>
      let* _ := goProject c typesCopy rType pc in
      goProjects c typesCopy rType rest
  end.

(** [for rType, pcs := range rc] *)
Fixpoint goGroups (c : Client) (typesCopy : loc) (rc : resourceConfigs) : M unit :=
  match rc with
  | [] => ret tt
  | (rType, pcs) :: rest =>
      let* _ := goProjects c typesCopy rType pcs in
      goGroups c typesCopy rest
  end.

(** ** The concurrent part *)

(** The order in which the goroutines of a run finish, read off the schedule:
    the goroutine started first finishes after [hd 0 sched] of those started
    later, and so on down the list. Every order has a schedule
    ([completionOrder_any]). *)
Definition insertAt {A} (i : nat) (x : A) (l : list A) : list A :=
  take i l ++ x :: drop i l.

Fixpoint completionOrder (sched : list nat) (tasks : list task) : list task :=
  match tasks with
  | [] => []
  | f :: rest => insertAt (hd 0 sched) f (completionOrder (tl sched) rest)
  end.

(** [make(chan com, n)] and [ch <- c]. Nothing receives from the channel
    while the goroutines run, so a send on a full channel never completes:
    [None]. *)
Record chan := mkChan { cap : nat; buf : list com }.

Definition makeChan (n : nat) : chan := mkChan n [].

Definition send (ch : chan) (c : com) : option chan :=
  if decide (length (buf ch) < cap ch)
  then Some (mkChan (cap ch) (buf ch ++ [c]))
  else None.

(** What a goroutine does up to its send: the creator call, then either
    [return err] or the [com] it is about to send. *)
Definition call (c : Client) (ctx : context) (f : task) : com + error :=
  match f with
  | CreateCluster project cl =>
      match gke_create c ctx project cl with
      | inr err => inr err
      | inl clusterInfo => inl (mkCom project (Some clusterInfo) None)
      end
  | CreateVm project vm =>
      match gce_create c ctx project vm with
      | inr err => inr err
      | inl vmInfo => inl (mkCom project None (Some vmInfo))
      end
  end.

(** [errGroup.Wait()]: the goroutines finish one after the other; the group
    keeps the first error it is given; a goroutine stuck in its send never
    finishes and [Wait] never returns. *)
Inductive waited :=
  | Waited (communication : chan) (err : option error)
  | Stuck (communication : chan).

Fixpoint wait (c : Client) (ctx : context) (order : list task)
    (communication : chan) (gerr : option error) : waited :=
  match order with
  | [] => Waited communication gerr
  | f :: rest =>
      match call c ctx f with
      | inr err =>
          wait c (S ctx) rest communication
               (match gerr with None => Some err | Some _ => gerr end)
      | inl m =>
          match send communication m with
          | None => Stuck communication
          | Some communication' => wait c (S ctx) rest communication' gerr
          end
      end
  end.

(** ** The aggregation loop *)

(** One iteration of [for c := range communication]; [None] is the nil
    dereference of [*c.vmi]. *)
Definition collect (info : ResourceInfo) (c : com) : option ResourceInfo :=
  let pi := default (mkProjectInfo [] []) (info !! p c) in
  match ci c with
  | Some x => Some (<[p c := mkProjectInfo (Clusters pi ++ [x]) (VMs pi)]> info)
  | None =>
      match vmi c with
      | Some x => Some (<[p c := mkProjectInfo (Clusters pi) (VMs pi ++ [x])]> info)
      | None => None
      end
  end.

Fixpoint aggregate (coms : list com) (info : ResourceInfo) : option ResourceInfo :=
  match coms with
  | [] => Some info
  | c :: rest =>
      match collect info c with
      | None => None
      | Some info' => aggregate rest info'
      end
  end.

(** ** construct *)

Inductive outcome :=
  | Returned (userData : option UserData) (info : option ResourceInfo)
             (err : option error)
  | Panicked
  | Blocked.

(** A run of [construct]: how it ends, the goroutines it started (each calls
    its creator) and the heap it leaves. *)
Record run := mkRun {
  r_outcome : outcome;
  r_tasks : list task;
  r_heap : heap
}.

Definition construct (w : World) (rc : resourceConfigs) (res : Resource)
    (types : loc) (h : heap) : run :=
  match gcpClient w with
  | None => mkRun (Returned None None (Some ErrClientNotSet)) [] h
  | Some c =>
      let communication := makeChan maxChannels in
      let typesCopy := types in
      match goGroups c typesCopy rc (mkDstate h []) with
      | (s, Panic) => mkRun Panicked (d_tasks s) (d_heap s)
      | (s, Return err) =>
          mkRun (Returned None None (Some err)) (d_tasks s) (d_heap s)
      | (s, Next _) =>
          match wait c 0 (completionOrder (schedule w) (d_tasks s))
                     communication None with
          | Stuck ch => mkRun Blocked (d_tasks s) (d_heap s)
          | Waited ch (Some err) =>
              mkRun (Returned None None (Some err)) (d_tasks s) (d_heap s)
          | Waited ch None =>
              match aggregate (buf ch) ∅ with
              | None => mkRun Panicked (d_tasks s) (d_heap s)
              | Some info =>
                  match marshal w info with
                  | Some err =>
                      mkRun (Returned None None (Some err)) (d_tasks s) (d_heap s)
                  | None =>
                      mkRun (Returned (Some {[ResourceConfigType := info]})
                                      (Some info) None)
                            (d_tasks s) (d_heap s)
                  end
              end
          end
      end
  end.

(** ** Notions the statements are written with *)

(** A ring as [construct] keeps it: the cursor is inside the zone list. *)
Definition wfRing (r : stringRing) : Prop := index r < length (values r).

Definition countEmpty (zones : list string) : nat :=
  length (filter (λ z, z = "") zones).

(** The two inner loops of [construct] have one shape: draw the zone, start
    the goroutine, go on with the ring. *)
Fixpoint goEach {A} (zoneOf : A → string) (mk : string → A → task)
    (zoneRing : stringRing) (xs : list A) : M stringRing :=
  match xs with
  | [] => ret zoneRing
  | x :: rest =>
      let* (zone, zoneRing') := callAssignZone (zoneOf x) zoneRing in
      let* _ := go (mk zone x) in
      goEach zoneOf mk zoneRing' rest
  end.

(** The zone the [j]-th spec of a loop ends with, on a ring whose cursor is
    inside its list: its own when it has one, else the ring value after as
    many draws as there are unpinned specs before it. *)
Definition zoneGiven {A} (zoneOf : A → string) (r : stringRing) (xs : list A)
    (j : nat) (x : A) (zone : string) : Prop :=
  if decide (zoneOf x = "")
  then values r !! ((index r + countEmpty (zoneOf <$> take j xs))
                      mod length (values r)) = Some zone
  else zone = zoneOf x.

(** Zone listing answers every project with a zone list that is not empty. *)
Definition zonesListed (c : Client) : Prop :=
  ∀ project, ∃ zones, gce_listZones c project = inl zones ∧ zones ≠ [].

Definition taskProject (f : task) : string :=
  match f with
  | CreateCluster project _ => project
  | CreateVm project _ => project
  end.

(** Number of specs of a kind in a request. *)
Definition specCount (k : string) (rc : resourceConfigs) : nat :=
  sum_list ((λ e : string * list projectConfig,
               if decide (e.1 = k) then length e.2 else 0) <$> rc).

(** Projects left for a kind, as the loop sees them. *)
Definition avail (typesCopy : loc) (s : dstate) (k : string) : list Resource :=
  mapIndex (d_heap s) typesCopy k.

(** What the goroutines come back with, in the order they finish. *)
Fixpoint results (c : Client) (ctx : nat) (order : list task)
  : list (com + error) :=
  match order with
  | [] => []
  | f :: rest => call c ctx f :: results c (S ctx) rest
  end.

Fixpoint sent (rs : list (com + error)) : list com :=
  match rs with
  | [] => []
  | inl m :: rest => m :: sent rest
  | inr _ :: rest => sent rest
  end.

Fixpoint firstError (rs : list (com + error)) : option error :=
  match rs with
  | [] => None
  | inl _ :: rest => firstError rest
  | inr err :: rest => Some err
  end.

(** Exactly one of the two pointers of a [com] is set. *)
Definition populatedOnce (m : com) : Prop :=
  (is_Some (ci m) ∧ vmi m = None) ∨ (ci m = None ∧ is_Some (vmi m)).

Definition noProject : ProjectInfo := mkProjectInfo [] [].

Definition instances (pi : ProjectInfo) : nat :=
  length (Clusters pi) + length (VMs pi).

(** Clusters plus VMs over the whole inventory. *)
Definition totalInstances (info : ResourceInfo) : nat :=
  map_fold (λ _ pi n, instances pi + n) 0 info.

(** The cluster and VM infos a sequence of [com]s brings to one project, in
    the order of arrival. *)
Definition clustersOf (project : string) (coms : list com) : list InstanceInfo :=
  omap (λ m, if decide (p m = project) then ci m else None) coms.

Definition vmsOf (project : string) (coms : list com) : list InstanceInfo :=
  omap (λ m, if decide (p m = project)
             then match ci m with Some _ => None | None => vmi m end
             else None) coms.

(** The channel as [Wait] leaves it, or as it is when a goroutine is stuck. *)
Definition channelOf (wd : waited) : chan :=
  match wd with
  | Waited communication _ => communication
  | Stuck communication => communication
  end.

(** What [construct] does once the dispatch loop has gone through. *)
Definition afterDispatch (w : World) (c : Client) (s : dstate) : outcome :=
  let rs := results c 0 (completionOrder (schedule w) (d_tasks s)) in
  if decide (length (sent rs) ≤ maxChannels) then
    match firstError rs with
    | Some err => Returned None None (Some err)
    | None =>
        match aggregate (sent rs) ∅ with
        | None => Panicked
        | Some info =>
            match marshal w info with
            | Some err => Returned None None (Some err)
            | None => Returned (Some {[ResourceConfigType := info]}) (Some info) None
            end
        end
    end
  else Blocked.

(** ** Further notions: the ring, the pool and the started goroutines *)

(** [n] successive calls of [popProject] for one kind, collecting what they
    return. *)
Fixpoint popProjects (n : nat) (typesCopy : loc) (rType : string) (h : heap)
  : list (option Resource) * heap :=
  match n with
  | 0 => ([], h)
  | S n' =>
      let '(r, h') := popProject typesCopy rType h in
      let '(rs, h'') := popProjects n' typesCopy rType h' in
      (r :: rs, h'')
  end.

(** The zone a goroutine hands to its creator. *)
Definition taskZone (f : task) : string :=
  match f with
  | CreateCluster _ cl => clZone cl
  | CreateVm _ vm => vmZone vm
  end.

(** What a goroutine creates, its zone left aside: a cluster or a VM, and
    the part of the spec [construct] does not touch. *)
Inductive shape :=
  | ClusterOf (rest : string)
  | VmOf (rest : string).

Definition taskShape (f : task) : shape :=
  match f with
  | CreateCluster _ cl => ClusterOf (clRest cl)
  | CreateVm _ vm => VmOf (vmRest vm)
  end.

Definition specShapes (pc : projectConfig) : list shape :=
  ((λ cl, ClusterOf (clRest cl)) <$> pcClusters pc)
  ++ ((λ vm, VmOf (vmRest vm)) <$> pcVms pc).

Definition requestShapes (rc : resourceConfigs) : list shape :=
  mjoin ((λ e : string * list projectConfig, mjoin (specShapes <$> e.2)) <$> rc).

Definition isClusterOn (project : string) (f : task) : bool :=
  match f with
  | CreateCluster pr _ => bool_decide (pr = project)
  | CreateVm _ _ => false
  end.

Definition isVmOn (project : string) (f : task) : bool :=
  match f with
  | CreateCluster _ _ => false
  | CreateVm pr _ => bool_decide (pr = project)
  end.

(** A goroutine on a project of the pool, whose zones were listed, with a
    zone that is not empty or is one of the zones listed. *)
Definition taskFromPool (c : Client) (typesCopy : loc) (h : heap) (f : task)
  : Prop :=
  ∃ k r zones,
    r ∈ mapIndex h typesCopy k ∧
    taskProject f = ResName r ∧
    gce_listZones c (ResName r) = inl zones ∧
    (taskZone f ≠ "" ∨ taskZone f ∈ zones).

(** The zones the clusters, then the VMs of a spec are written with. *)
Definition specZones (pc : projectConfig) : list string :=
  (clZone <$> pcClusters pc) ++ (vmZone <$> pcVms pc).

(** The zone the [j]-th cluster or VM of a spec is started with, [zones]
    being the zones listed for its project: its own when it has one, else
    the zone at the position the cursor has reached, that is the number of
    clusters and VMs without a zone before it in the spec, modulo the number
    of zones. *)
Definition zoneFor (zones zs : list string) (j : nat) : option string :=
  match zs !! j with
  | None => None
  | Some z =>
      if decide (z = "")
      then zones !! (countEmpty (take j zs) mod length zones)
      else Some z
  end.

(** The goroutine for the [j]-th cluster or VM of a spec, clusters first. *)
Definition specTask (project : string) (pc : projectConfig) (j : nat)
    (zone : string) : option task :=
  match pcClusters pc !! j with
  | Some cl => Some (CreateCluster project (mkCluster zone (clRest cl)))
  | None =>
      match pcVms pc !! (j - length (pcClusters pc)) with
      | Some vm => Some (CreateVm project (mkVm zone (vmRest vm)))
      | None => None
      end
  end.

(** A goroutine started for the spec [pc] of kind [k]: on a project of that
    kind in the pool, whose zones were listed, for some cluster or VM of the
    spec, with the zone [zoneFor] gives it. *)
Definition taskOf (c : Client) (typesCopy : loc) (h : heap) (k : string)
    (pc : projectConfig) (f : task) : Prop :=
  ∃ r zones j zone,
    r ∈ mapIndex h typesCopy k ∧
    gce_listZones c (ResName r) = inl zones ∧
    zoneFor zones (specZones pc) j = Some zone ∧
    specTask (ResName r) pc j zone = Some f.

(** A goroutine started for some spec of the request. *)
Definition taskFromSpec (c : Client) (typesCopy : loc) (h : heap)
    (rc : resourceConfigs) (f : task) : Prop :=
  ∃ k pcs pc, (k, pcs) ∈ rc ∧ pc ∈ pcs ∧ taskOf c typesCopy h k pc f.

(** How the state of the dispatch loop moves: projects leave the pools from
    the end, the other maps stay, goroutines are added. *)
Definition grows (c : Client) (typesCopy : loc) (s0 s : dstate) : Prop :=
  (∀ k, mapIndex (d_heap s) typesCopy k `prefix_of` mapIndex (d_heap s0) typesCopy k) ∧
  (∀ m, m ≠ typesCopy → d_heap s !! m = d_heap s0 !! m) ∧
  ∃ ts, d_tasks s = d_tasks s0 ++ ts ∧
        Forall (taskFromPool c typesCopy (d_heap s0)) ts.

(** ** randomString and generateName *)

Definition charset : string := "abcdefghijklmnopqrstuvwxyz1234567890".

Abbreviation ascii := Stdlib.Strings.Ascii.ascii (only parsing).

(** [seededRand]: the generator of the package, seen through what it will
    answer: [source r i] is the raw value behind its call number [i], and
    [used r] the number of calls made so far. *)
Record Rand := mkRand { source : nat → nat; used : nat }.

(** [r.Intn(n)]: a value below [n]; it panics when [n] is not positive. *)
Definition Intn (n : nat) (r : Rand) : option (nat * Rand) :=
  match n with
  | 0 => None
  | S _ => Some (source r (used r) mod n, mkRand (source r) (S (used r)))
  end.

(** [for i := range b { b[i] = charset[seededRand.Intn(len(charset))] }] on
    the [n] bytes left to fill; [None] is a panic ([Intn], or the index into
    [charset]). *)
Fixpoint fillRandom (n : nat) (r : Rand) : option (list ascii * Rand) :=
  match n with
  | 0 => Some ([], r)
  | S n' =>
      match Intn (String.length charset) r with
      | None => None
      | Some (i, r1) =>
          match String.get i charset with
          | None => None
          | Some ch =>
              match fillRandom n' r1 with
              | None => None
              | Some (b, r2) => Some (ch :: b, r2)
              end
          end
      end
  end.

(** [randomString]: [make([]byte, length)] panics on a negative length. *)
Definition randomString (length : Z) (r : Rand) : option (string * Rand) :=
  if decide (length < 0)%Z then None
  else
    match fillRandom (Z.to_nat length) r with
    | None => None
    | Some (b, r') => Some (String.string_of_list_ascii b, r')
    end.

(** What [time.Now()] answers, as far as the layout "010206" reads it. *)
Record Date := mkDate { year : nat; month : nat; day : nat }.

Definition digit (d : nat) : ascii :=
  Stdlib.Strings.Ascii.ascii_of_nat (48 + d).

Definition twoDigits (n : nat) : string :=
  String (digit (n / 10 mod 10)) (String (digit (n mod 10)) "").

(** [t.Format("010206")]: month, day and year, two digits each. *)
Definition format010206 (t : Date) : string :=
  twoDigits (month t) +:+ twoDigits (day t) +:+ twoDigits (year t).

(** [generateName]: [fmt.Sprintf("%s-%s-%s", prefix, date, randString)]. *)
Definition generateName (prefix : string) (now : Date) (r : Rand)
  : option (string * Rand) :=
  let date := format010206 now in
  match randomString 10 r with
  | None => None
  | Some (randString, r') =>
      Some (prefix +:+ "-" +:+ date +:+ "-" +:+ randString, r')
  end.

(** ** Install *)

(** A call [SetKubeConfig(project, zone, cluster, kubeconfig)]. The function
    is a collaborator: what it answers to a call is given. *)
Record kubeCall := mkKubeCall {
  kcProject : string;
  kcZone : string;
  kcCluster : string;
  kcFile : string
}.

(** [for _, c := range p.Clusters { ... }]: the calls made, and the error
    returned from inside the loop if any. *)
Fixpoint installClusters (setKubeConfig : kubeCall → option error)
    (project kubeconfig : string) (clusters : list InstanceInfo)
  : list kubeCall * option error :=
  match clusters with
  | [] => ([], None)
  | c :: rest =>
      let k := mkKubeCall project (Zone c) (Name c) kubeconfig in
      match setKubeConfig k with
      | Some err => ([k], Some err)
      | None =>
          let '(ks, e) := installClusters setKubeConfig project kubeconfig rest in
          (k :: ks, e)
      end
  end.

(** [ResourceInfo.Install]: the receiver is given as the entries [range r]
    yields, in that order. *)
Fixpoint Install (setKubeConfig : kubeCall → option error)
    (r : list (string * ProjectInfo)) (kubeconfig : string)
  : list kubeCall * option error :=
  match r with
  | [] => ([], None)
  | (project, p) :: rest =>
      match installClusters setKubeConfig project kubeconfig (Clusters p) with
      | (ks, Some err) => (ks, Some err)
      | (ks, None) =>
          let '(ks', e) := Install setKubeConfig rest kubeconfig in
          (ks ++ ks', e)
      end
  end.

(** The calls an inventory asks for: one per cluster, none for a VM. *)
Definition kubeCalls (r : list (string * ProjectInfo)) (kubeconfig : string)
  : list kubeCall :=
  mjoin ((λ e : string * ProjectInfo,
            (λ c, mkKubeCall e.1 (Zone c) (Name c) kubeconfig) <$> Clusters e.2)
         <$> r).

(** Calls made one after the other until one fails. *)
Fixpoint runCalls (setKubeConfig : kubeCall → option error)
    (ks : list kubeCall) : list kubeCall * option error :=
  match ks with
  | [] => ([], None)
  | k :: rest =>
      match setKubeConfig k with
      | Some err => ([k], Some err)
      | None => let '(ks', e) := runCalls setKubeConfig rest in (k :: ks', e)
      end
  end.

Definition totalClusters (info : ResourceInfo) : nat :=
  map_fold (λ _ pi n, length (Clusters pi) + n) 0 info.

(** ** getTempFile and Construct *)

Definition KubeConfigKey : string := "kubeconfig".

(** What the user data of [Construct] holds under its keys: the inventory
    under [ResourceConfigType], the text of the kubeconfig under
    [KubeConfigKey]. *)
Inductive udValue :=
  | UdInventory (info : ResourceInfo)
  | UdText (data : string).

Abbreviation FullUserData := (gmap string udValue).

(** The machine [Construct] runs on, through what it answers:
    [ioutil.TempFile("", pattern)], [f.Close()], [SetKubeConfig],
    [ioutil.ReadFile], the choices the runtime makes when [range] visits an
    inventory, and whether [UserData.Set] can store the text. *)
Record Host := mkHost {
  tempFile : string → string + error;
  closeFile : string → option error;
  setKubeConfigOn : kubeCall → option error;
  readFile : string → string + error;
  rangeSeed : ResourceInfo → list nat;
  storeText : string → option error
}.

(** [range] over a map visits every entry once, in an order the runtime
    chooses: the entries are placed one after the other at the positions the
    seed gives. Every order has a seed ([visitOrder_any]). *)
Fixpoint visitOrder {A} (seed : list nat) (l : list A) : list A :=
  match l with
  | [] => []
  | x :: rest => insertAt (hd 0 seed) x (visitOrder (tl seed) rest)
  end.

(** The entries [for project, p := range r] yields, in order. *)
Definition rangeOrder (host : Host) (r : ResourceInfo)
  : list (string * ProjectInfo) :=
  visitOrder (rangeSeed host r) (map_to_list r).

(** What [Construct] does to the machine, in order. *)
Inductive event :=
  | Created (path : string)
  | Kube (k : kubeCall)
  | Read (path : string)
  | Removed (path : string).

(** [getTempFile]: the file is created, then closed; the events, and the
    name or the error. *)
Definition getTempFile (host : Host) (pattern : string)
  : list event * (string + error) :=
  match tempFile host pattern with
  | inr err => ([], inr err)
  | inl name =>
      match closeFile host name with
      | Some err => ([Created name], inr err)
      | None => ([Created name], inl name)
      end
  end.

Inductive result :=
  | Gave (userData : option FullUserData) (err : option error)
  | Panics
  | Blocks.

(** A run of [Construct]: how it ends, what it did to the machine, and the
    run of [construct] inside it. *)
Record Crun := mkCrun {
  c_result : result;
  c_events : list event;
  c_run : run
}.

(** The user data of [construct], seen as user data of [Construct]. *)
Definition asFull (ud : UserData) : FullUserData := UdInventory <$> ud.

(** [Construct]. [defer os.Remove(kubeconfig)] runs on every way out once
    the file has its name, a panic included. A nil [info] or [userData]
    would be dereferenced by [info.Install] and [userData.Set]: a panic. *)
Definition Construct (w : World) (host : Host) (rc : resourceConfigs)
    (res : Resource) (types : loc) (h : heap) : Crun :=
  let r := construct w rc res types h in
  match r_outcome r with
  | Panicked => mkCrun Panics [] r
  | Blocked => mkCrun Blocks [] r
  | Returned userData info (Some err) =>
      mkCrun (Gave (asFull <$> userData) (Some err)) [] r
  | Returned userData info None =>
      match getTempFile host "kubeconfig" with
      | (evs, inr err) => mkCrun (Gave None (Some err)) evs r
      | (evs, inl kubeconfig) =>
          match info with
          | None => mkCrun Panics (evs ++ [Removed kubeconfig]) r
          | Some info =>
              match Install (setKubeConfigOn host) (rangeOrder host info)
                            kubeconfig with
              | (ks, Some err) =>
                  mkCrun (Gave None (Some err))
                         (evs ++ (Kube <$> ks) ++ [Removed kubeconfig]) r
              | (ks, None) =>
                  match readFile host kubeconfig with
                  | inr err =>
                      mkCrun (Gave None (Some err))
                             (evs ++ (Kube <$> ks)
                                  ++ [Read kubeconfig; Removed kubeconfig]) r
                  | inl data =>
                      match userData with
                      | None =>
                          mkCrun Panics
                                 (evs ++ (Kube <$> ks)
                                      ++ [Read kubeconfig; Removed kubeconfig]) r
                      | Some ud =>
                          match storeText host data with
                          | Some err =>
                              mkCrun (Gave None (Some err))
                                     (evs ++ (Kube <$> ks)
                                          ++ [Read kubeconfig; Removed kubeconfig]) r
                          | None =>
                              mkCrun
                                (Gave (Some (<[KubeConfigKey := UdText data]>
                                               (asFull ud))) None)
                                (evs ++ (Kube <$> ks)
                                     ++ [Read kubeconfig; Removed kubeconfig]) r
                          end
                      end
                  end
              end
          end
      end
  end.

(** An event that touches no file but [path]. *)
Definition eventOn (path : string) (ev : event) : Prop :=
  match ev with
  | Created q => q = path
  | Kube k => kcFile k = path
  | Read q => q = path
  | Removed q => q = path
  end.

(** ** Scenarios

    The inputs the statements below are run on: one pool ["pool-X"] holding
    the project ["proj-1"], and a few requests and clients. The caller's map
    is the object at location [0]. *)

Definition projOne : Resource := mkResource "pool-X" "proj-1" "free" "".

Definition onePool : heap := {[ 0 := {[ "pool-X" := [projOne] ]} ]}.

(** Creators that succeed and report the zone they were given; zone listing
    answers [us-a, us-b]. *)
Definition echoClient : Client :=
  mkClient (λ _ _ cl, inl (mkInstance "cluster" (clZone cl)))
           (λ _ _ vm, inl (mkInstance "vm" (vmZone vm)))
           (λ _, inl ["us-a"; "us-b"]).

(** The same, with a cluster creator that fails. *)
Definition quotaClient : Client :=
  mkClient (λ _ _ _, inr (ErrExternal "quota exceeded"))
           (λ _ _ vm, inl (mkInstance "vm" (vmZone vm)))
           (λ _, inl ["us-a"; "us-b"]).

(** Zone listing succeeds with no zone. *)
Definition noZoneClient : Client :=
  mkClient (λ _ _ cl, inl (mkInstance "cluster" (clZone cl)))
           (λ _ _ vm, inl (mkInstance "vm" (vmZone vm)))
           (λ _, inl []).

(** Zone listing fails. *)
Definition zoneErrorClient : Client :=
  mkClient (λ _ _ cl, inl (mkInstance "cluster" (clZone cl)))
           (λ _ _ vm, inl (mkInstance "vm" (vmZone vm)))
           (λ _, inr (ErrExternal "zones unavailable")).

(** The creation that finishes first fails, every later one succeeds. *)
Definition firstFailsClient : Client :=
  mkClient (λ ctx _ cl, match ctx with
                        | 0 => inr (ErrExternal "quota exceeded")
                        | S _ => inl (mkInstance "cluster" (clZone cl))
                        end)
           (λ _ _ vm, inl (mkInstance "vm" (vmZone vm)))
           (λ _, inl ["us-a"; "us-b"]).

Definition worldOf (c : Client) : World := mkWorld (Some c) [] (λ _, None).

(** One spec: a cluster and a VM, no zone pinned. *)
Definition oneOfEach : resourceConfigs :=
  [("pool-X", [mkProjectConfig [mkCluster "" ""] [mkVm "" ""]])].

(** One spec with 101 clusters. *)
Definition manyClusters : resourceConfigs :=
  [("pool-X", [mkProjectConfig (replicate 101 (mkCluster "" "")) []])].

(** One spec: a cluster with a zone of its own, then a cluster and a VM
    with none. *)
Definition pinnedThenNot : resourceConfigs :=
  [("pool-X", [mkProjectConfig [mkCluster "us-c" ""; mkCluster "" ""]
                               [mkVm "" ""]])].

(** Two specs for a pool of one project. *)
Definition twoSpecs : resourceConfigs :=
  [("pool-X", [mkProjectConfig [mkCluster "" ""] [];
               mkProjectConfig [] [mkVm "" ""]])].

(** A machine on which nothing fails: the temporary file is
    ["/tmp/kubeconfig1"], and reading it back gives ["contexts"]. *)
Definition calmHost : Host :=
  mkHost (λ _, inl "/tmp/kubeconfig1") (λ _, None) (λ _, None)
         (λ _, inl "contexts") (λ _, []) (λ _, None).

(** * Properties *)

(** ** The zone ring *)

Section Ring.

Lemma newStringRing_wf (zones : list string) :
  zones ≠ [] → wfRing (newStringRing zones).
Proof.
  intros Hne. unfold wfRing, newStringRing; simpl.
  destruct zones; [congruence | simpl; lia].
Qed.

Lemma next_wf (r : stringRing) :
  wfRing r →
  ∃ v, values r !! index r = Some v ∧
       next r = Some (v, mkRing ((index r + 1) mod length (values r)) (values r)) ∧
       wfRing (mkRing ((index r + 1) mod length (values r)) (values r)).
Proof.
  unfold wfRing. intros Hlt.
  destruct (lookup_lt_is_Some_2 _ _ Hlt) as [v Hv].
  exists v. unfold next. rewrite Hv. repeat split; simpl.
  apply Nat.mod_upper_bound. lia.
Qed.

Lemma next_empty (i : nat) : next (mkRing i []) = None.
Proof. reflexivity. Qed.

(** [next] reads inside the list or panics; it never yields a value that is
    not at the cursor. *)
Lemma next_Some (r : stringRing) (v : string) (r' : stringRing) :
  next r = Some (v, r') →
  values r !! index r = Some v ∧ wfRing r ∧ values r' = values r ∧
  index r' = (index r + 1) mod length (values r).
Proof.
  unfold next. destruct (values r !! index r) as [x|] eqn:Hx; [|done].
  intros [= <- <-]. simpl. repeat split.
  unfold wfRing. by apply lookup_lt_Some in Hx.
Qed.

Lemma nexts_wf (k : nat) : ∀ r : stringRing,
  wfRing r →
  ∃ vs, nexts k r
        = Some (vs, mkRing ((index r + k) mod length (values r)) (values r)) ∧
        length vs = k ∧
        ∀ i, i < k →
             vs !! i = values r !! ((index r + i) mod length (values r)).
Proof.
  induction k as [|k IH]; intros r Hwf.
  - exists []. simpl. repeat split.
    + rewrite Nat.add_0_r, Nat.mod_small by exact Hwf. by destruct r.
    + intros i Hi. lia.
  - destruct (next_wf r Hwf) as (v & Hv & Hn & Hwf').
    destruct (IH _ Hwf') as (vs & Hvs & Hlen & Hnth). simpl in Hvs, Hnth.
    exists (v :: vs). simpl. rewrite Hn, Hvs. repeat split.
    + do 2 f_equal. f_equal.
      rewrite Nat.Div0.add_mod_idemp_l.
      f_equal. lia.
    + simpl. by rewrite Hlen.
    + intros [|i] Hi.
      * simpl. rewrite Nat.add_0_r, Nat.mod_small by exact Hwf. done.
      * simpl. rewrite Hnth by lia.
        rewrite Nat.Div0.add_mod_idemp_l.
        do 2 f_equal. lia.
Qed.

End Ring.

(** ** Zone assignment in the dispatch loop *)

Section Zones.

Lemma countEmpty_cons (z : string) (zones : list string) :
  countEmpty (z :: zones)
  = (if decide (z = "") then 1 else 0) + countEmpty zones.
Proof.
  unfold countEmpty. destruct (decide (z = "")).
  - by rewrite filter_cons_True.
  - by rewrite filter_cons_False.
Qed.

Lemma assignZone_pinned (zone : string) (r : stringRing) :
  zone ≠ "" → assignZone zone r = Some (zone, r).
Proof. intros Hz. unfold assignZone. by rewrite decide_False. Qed.

Lemma assignZone_unpinned (r : stringRing) : assignZone "" r = next r.
Proof. reflexivity. Qed.

Lemma goClusters_goEach (project : Resource) (cls : list clusterConfig) :
  ∀ r s, goClusters project r cls s
         = goEach clZone
             (λ z cl, CreateCluster (ResName project) (mkCluster z (clRest cl)))
             r cls s.
Proof.
  induction cls as [|cl rest IH]; intros r s; [done|].
  simpl. unfold bind. destruct (callAssignZone (clZone cl) r s) as [s1 [[z r1]| |]];
    simpl; [apply IH | done | done].
Qed.

Lemma goVms_goEach (project : Resource) (vms : list virtualMachineConfig) :
  ∀ r s, goVms project r vms s
         = goEach vmZone
             (λ z vm, CreateVm (ResName project) (mkVm z (vmRest vm)))
             r vms s.
Proof.
  induction vms as [|vm rest IH]; intros r s; [done|].
  simpl. unfold bind. destruct (callAssignZone (vmZone vm) r s) as [s1 [[z r1]| |]];
    simpl; [apply IH | done | done].
Qed.

Lemma goEach_wf {A} (zoneOf : A → string) (mk : string → A → task)
    (xs : list A) : ∀ (r : stringRing) (s : dstate),
  wfRing r →
  ∃ ts r',
    goEach zoneOf mk r xs s = (mkDstate (d_heap s) (d_tasks s ++ ts), Next r') ∧
    values r' = values r ∧
    index r' = (index r + countEmpty (zoneOf <$> xs)) mod length (values r) ∧
    length ts = length xs ∧
    ∀ j x, xs !! j = Some x →
      ∃ zone, ts !! j = Some (mk zone x) ∧ zoneGiven zoneOf r xs j x zone.
Proof.
  induction xs as [|x rest IH]; intros r s Hwf.
  - exists [], r. simpl. unfold ret. rewrite app_nil_r. destruct s; simpl.
    repeat split; try done.
    unfold countEmpty; simpl. rewrite Nat.add_0_r, Nat.mod_small; done.
  - cbn [goEach]. unfold bind, callAssignZone, assignZone.
    destruct (decide (zoneOf x = "")) as [He|Hne].
    + destruct (next_wf r Hwf) as (v & Hv & Hn & Hwf'). rewrite Hn.
      set (r1 := mkRing _ _) in *.
      destruct (IH r1 (mkDstate (d_heap s) (d_tasks s ++ [mk v x])) Hwf')
        as (ts & r' & Hrun & Hvals & Hidx & Hlen & Hts).
      exists (mk v x :: ts), r'. cbn [ret go d_heap d_tasks] in *.
      rewrite Hrun, <- app_assoc.
      split; [done|]. split; [done|]. split; [|split].
      * rewrite Hidx. subst r1. cbn [index values].
        rewrite fmap_cons, countEmpty_cons, decide_True by done.
        rewrite Nat.Div0.add_mod_idemp_l. f_equal. lia.
      * simpl. by rewrite Hlen.
      * intros [|j] y Hy; simpl in Hy.
        -- injection Hy as <-. exists v. split; [done|].
           unfold zoneGiven. rewrite decide_True by done. simpl.
           unfold countEmpty; simpl. rewrite Nat.add_0_r, Nat.mod_small; done.
        -- destruct (Hts j y Hy) as (z & Hz & Hgiven). exists z. split; [done|].
           unfold zoneGiven in *. destruct (decide (zoneOf y = "")); [|done].
           rewrite <- Hgiven. subst r1. cbn [index values take].
           rewrite fmap_cons, countEmpty_cons, decide_True by done.
           rewrite Nat.Div0.add_mod_idemp_l. do 2 f_equal. lia.
    + destruct (IH r (mkDstate (d_heap s) (d_tasks s ++ [mk (zoneOf x) x])) Hwf)
        as (ts & r' & Hrun & Hvals & Hidx & Hlen & Hts).
      exists (mk (zoneOf x) x :: ts), r'. cbn [ret go d_heap d_tasks] in *.
      rewrite Hrun, <- app_assoc.
      split; [done|]. split; [done|]. split; [|split].
      * rewrite Hidx, fmap_cons, countEmpty_cons, decide_False by done. done.
      * simpl. by rewrite Hlen.
      * intros [|j] y Hy; simpl in Hy.
        -- injection Hy as <-. exists (zoneOf x). split; [done|].
           unfold zoneGiven. by rewrite decide_False.
        -- destruct (Hts j y Hy) as (z & Hz & Hgiven). exists z. split; [done|].
           unfold zoneGiven in *. destruct (decide (zoneOf y = "")); [|done].
           rewrite <- Hgiven. cbn [take].
           rewrite fmap_cons, countEmpty_cons, decide_False by done. done.
Qed.

End Zones.

(** ** The project pool *)

Section Pool.

Lemma mapIndex_mapAssign_eq (h : heap) (m : nat) (k : string) (v : list Resource) :
  mapIndex (mapAssign h m k v) m k = v.
Proof.
  unfold mapIndex, mapAssign.
  rewrite lookup_insert_eq. simpl. by rewrite lookup_insert_eq.
Qed.

Lemma mapIndex_mapAssign_ne (h : heap) (m : nat) (k k' : string)
    (v : list Resource) :
  k ≠ k' → mapIndex (mapAssign h m k v) m k' = mapIndex h m k'.
Proof.
  intros Hne. unfold mapIndex, mapAssign.
  rewrite lookup_insert_eq. simpl. by rewrite lookup_insert_ne.
Qed.

Lemma popProject_empty (typesCopy : nat) (rType : string) (h : heap) :
  mapIndex h typesCopy rType = [] → popProject typesCopy rType h = (None, h).
Proof. intros He. unfold popProject. by rewrite He. Qed.

Lemma popProject_last (typesCopy : nat) (rType : string) (h : heap)
    (l : list Resource) (r : Resource) :
  mapIndex h typesCopy rType = l ++ [r] →
  popProject typesCopy rType h = (Some r, mapAssign h typesCopy rType l).
Proof.
  intros He. unfold popProject. rewrite He, last_snoc. do 2 f_equal.
  rewrite length_app. simpl.
  replace (length l + 1 - 1) with (length l) by lia.
  by rewrite take_app_length.
Qed.

Lemma list_empty_or_snoc {A} (l : list A) : l = [] ∨ ∃ l' x, l = l' ++ [x].
Proof.
  induction l as [|y l IH] using rev_ind; [by left | right; eauto].
Qed.

Lemma specCount_cons (k k0 : string) (pcs : list projectConfig)
    (rc : resourceConfigs) :
  specCount k ((k0, pcs) :: rc)
  = (if decide (k0 = k) then length pcs else 0) + specCount k rc.
Proof. reflexivity. Qed.

End Pool.

(** ** The dispatch loop *)

Section Dispatch.

Variable c : Client.
Variable typesCopy : nat.

Local Abbreviation avail := (avail typesCopy).

Lemma goProject_exhausted (rType : string) (pc : projectConfig) (s : dstate) :
  avail s rType = [] →
  goProject c typesCopy rType pc s = (s, Return ErrRunningOutOfProject).
Proof.
  intros He. unfold goProject, bind, callPopProject.
  rewrite (popProject_empty _ _ _ He). by destruct s.
Qed.

(** One spec, one project: with a project at hand and its zones listed, the
    body of the loop pops that project and starts one goroutine per cluster
    and per VM of the spec, all on that project. *)
Lemma goProject_pops (rType : string) (pc : projectConfig) (s : dstate)
    (l : list Resource) (r : Resource) :
  zonesListed c →
  avail s rType = l ++ [r] →
  ∃ ts,
    goProject c typesCopy rType pc s
    = (mkDstate (mapAssign (d_heap s) typesCopy rType l) (d_tasks s ++ ts),
       Next tt) ∧
    length ts = length (pcClusters pc) + length (pcVms pc) ∧
    Forall (λ f, taskProject f = ResName r) ts.
Proof.
  intros Hz He. unfold goProject, bind at 1, callPopProject.
  rewrite (popProject_last _ _ _ _ _ He).
  destruct (Hz (ResName r)) as (zones & -> & Hne).
  pose proof (newStringRing_wf zones Hne) as Hwf.
  unfold bind at 1. rewrite goClusters_goEach.
  destruct (goEach_wf clZone
              (λ z cl, CreateCluster (ResName r) (mkCluster z (clRest cl)))
              (pcClusters pc) (newStringRing zones)
              (mkDstate (mapAssign (d_heap s) typesCopy rType l) (d_tasks s)) Hwf)
    as (ts1 & r1 & -> & Hv1 & Hi1 & Hl1 & Ht1).
  assert (Hwf1 : wfRing r1).
  { unfold wfRing. rewrite Hi1, Hv1. apply Nat.mod_upper_bound.
    unfold wfRing in Hwf. lia. }
  unfold bind. rewrite goVms_goEach. cbn [d_heap d_tasks].
  destruct (goEach_wf vmZone
              (λ z vm, CreateVm (ResName r) (mkVm z (vmRest vm)))
              (pcVms pc) r1
              (mkDstate (mapAssign (d_heap s) typesCopy rType l)
                        (d_tasks s ++ ts1)) Hwf1)
    as (ts2 & r2 & -> & Hv2 & Hi2 & Hl2 & Ht2).
  exists (ts1 ++ ts2). cbn [d_heap d_tasks ret]. rewrite app_assoc.
  split; [done|]. split; [rewrite length_app; lia|].
  apply Forall_app. split; apply Forall_lookup; intros j f Hf.
  - destruct (lookup_lt_is_Some_2 (pcClusters pc) j) as [cl Hcl].
    { rewrite <- Hl1. by apply lookup_lt_Some in Hf. }
    destruct (Ht1 j cl Hcl) as (z & Hz' & _). rewrite Hf in Hz'.
    by injection Hz' as ->.
  - destruct (lookup_lt_is_Some_2 (pcVms pc) j) as [vm Hvm].
    { rewrite <- Hl2. by apply lookup_lt_Some in Hf. }
    destruct (Ht2 j vm Hvm) as (z & Hz' & _). rewrite Hf in Hz'.
    by injection Hz' as ->.
Qed.

(** The loop over the specs of one kind either goes through, with one project
    popped per spec, or stops at the first spec that finds no project; the
    state it stops in is the one the specs before it left. *)
Lemma goProjects_cases (rType : string) (pcs : list projectConfig) :
  zonesListed c →
  ∀ s,
    (∃ s', goProjects c typesCopy rType pcs s = (s', Next tt) ∧
           length (avail s' rType) + length pcs = length (avail s rType) ∧
           ∀ k, k ≠ rType → avail s' k = avail s k)
    ∨
    (∃ pre pc post s',
        pcs = pre ++ pc :: post ∧
        goProjects c typesCopy rType pre s = (s', Next tt) ∧
        avail s' rType = [] ∧
        length pre = length (avail s rType) ∧
        goProjects c typesCopy rType pcs s = (s', Return ErrRunningOutOfProject)).
Proof.
  intros Hz. induction pcs as [|pc rest IH]; intros s.
  - left. exists s. simpl. unfold ret. split; [done|]. split; [lia|done].
  - destruct (list_empty_or_snoc (avail s rType)) as [He|(l & r & He)].
    + right. exists [], pc, rest, s. simpl. unfold bind, ret.
      rewrite (goProject_exhausted _ _ _ He), He. done.
    + destruct (goProject_pops rType pc s l r Hz He) as (ts & Hrun & _ & _).
      set (s1 := mkDstate _ _) in Hrun.
      assert (H1 : avail s1 rType = l).
      { unfold avail, s1. simpl. apply mapIndex_mapAssign_eq. }
      assert (H2 : ∀ k, k ≠ rType → avail s1 k = avail s k).
      { intros k Hk. unfold avail, s1. simpl.
        by apply mapIndex_mapAssign_ne. }
      destruct (IH s1) as [(s' & Hgo & Hlen & Hoth)
                          |(pre & pc' & post & s' & -> & Hgo & Hemp & Hlen & Hall)].
      * left. exists s'. simpl. unfold bind. rewrite Hrun. split; [done|].
        split.
        -- rewrite He, length_app. simpl. rewrite H1 in Hlen. lia.
        -- intros k Hk. rewrite Hoth by done. by apply H2.
      * right. exists (pc :: pre), pc', post, s'. simpl. unfold bind.
        rewrite Hrun. repeat split; try done.
        rewrite He, length_app. simpl. rewrite H1 in Hlen. lia.
Qed.

Lemma goGroups_app (rc1 rc2 : resourceConfigs) : ∀ s,
  goGroups c typesCopy (rc1 ++ rc2) s
  = bind (goGroups c typesCopy rc1) (λ _, goGroups c typesCopy rc2) s.
Proof.
  induction rc1 as [|[k pcs] rest IH]; intros s; [done|].
  simpl. unfold bind.
  destruct (goProjects c typesCopy k pcs s) as [s1 [[]| |]]; [|done|done].
  rewrite IH. done.
Qed.

(** The outer loop: it goes through and has popped, for every kind, as many
    projects as the request has specs of that kind; or it returns at the
    first spec that finds no project, in the state the request cut before
    that spec leaves. *)
Lemma goGroups_cases (rc : resourceConfigs) :
  zonesListed c →
  ∀ s,
    (∃ s', goGroups c typesCopy rc s = (s', Next tt) ∧
           ∀ k, length (avail s' k) + specCount k rc = length (avail s k))
    ∨
    (∃ pre k pcs pc post rest s',
        rc = pre ++ (k, pcs ++ pc :: post) :: rest ∧
        goGroups c typesCopy (pre ++ [(k, pcs)]) s = (s', Next tt) ∧
        avail s' k = [] ∧
        goGroups c typesCopy rc s = (s', Return ErrRunningOutOfProject)).
Proof.
  intros Hz. induction rc as [|[k0 pcs0] rc IH]; intros s.
  - left. exists s. split; [done|]. intros k. unfold specCount. simpl. lia.
  - destruct (goProjects_cases k0 pcs0 Hz s)
      as [(s1 & Hgo1 & Hlen1 & Hoth1)
         |(pcs & pc & post & s' & -> & Hgo1 & Hemp & _ & Hall)].
    + destruct (IH s1) as [(s' & Hgo & Hcount)
                          |(pre & k & pcs & pc & post & rest & s' & -> & Hgo & Hemp & Hall)].
      * left. exists s'. simpl. unfold bind. rewrite Hgo1. split; [done|].
        intros k. specialize (Hcount k). rewrite specCount_cons.
        destruct (decide (k0 = k)) as [->|Hne].
        -- lia.
        -- rewrite <- (Hoth1 k) by done. lia.
      * right. exists ((k0, pcs0) :: pre), k, pcs, pc, post, rest, s'.
        simpl. unfold bind. rewrite Hgo1. done.
    + right. exists [], k0, pcs, pc, post, rc, s'. simpl. unfold bind.
      rewrite Hgo1, Hall. done.
Qed.

End Dispatch.

(** The dispatch loop asks its client for zone lists only. *)
Lemma goGroups_listZones_only (c1 c2 : Client) (typesCopy : nat)
    (rc : resourceConfigs) :
  (∀ project, gce_listZones c1 project = gce_listZones c2 project) →
  ∀ s, goGroups c1 typesCopy rc s = goGroups c2 typesCopy rc s.
Proof.
  intros Hz.
  assert (Hp : ∀ k pc s, goProject c1 typesCopy k pc s
                         = goProject c2 typesCopy k pc s).
  { intros k pc s. unfold goProject, bind.
    destruct (callPopProject typesCopy k s) as [s1 [[r|]| |]]; try done.
    by rewrite Hz. }
  assert (Hps : ∀ k pcs s, goProjects c1 typesCopy k pcs s
                           = goProjects c2 typesCopy k pcs s).
  { intros k pcs. induction pcs as [|pc rest IH]; intros s; [done|].
    simpl. unfold bind. rewrite Hp.
    destruct (goProject c2 typesCopy k pc s) as [s1 [[]| |]]; try done. }
  induction rc as [|[k pcs] rest IH]; intros s; [done|].
  simpl. unfold bind. rewrite Hps.
  destruct (goProjects c2 typesCopy k pcs s) as [s1 [[]| |]]; try done.
Qed.

(** ** The goroutines and the channel *)

Section Group.

Lemma insertAt_perm {A} (i : nat) (x : A) (l : list A) :
  insertAt i x l ≡ₚ x :: l.
Proof.
  unfold insertAt. rewrite <- Permutation_middle. by rewrite take_drop.
Qed.

Lemma completionOrder_perm (sched : list nat) (tasks : list task) :
  completionOrder sched tasks ≡ₚ tasks.
Proof.
  revert sched. induction tasks as [|f rest IH]; intros sched; [done|].
  simpl. rewrite insertAt_perm. by rewrite IH.
Qed.

Lemma completionOrder_length (sched : list nat) (tasks : list task) :
  length (completionOrder sched tasks) = length tasks.
Proof. by rewrite completionOrder_perm. Qed.

Lemma insertAt_nil {A} (i : nat) (x : A) : insertAt i x [] = [x].
Proof. unfold insertAt. by rewrite take_nil, drop_nil. Qed.

(** Two goroutines finish in one of two orders. *)
Lemma completionOrder_pair (sched : list nat) (f g : task) :
  completionOrder sched [f; g]
  = match hd 0 sched with 0 => [f; g] | S _ => [g; f] end.
Proof.
  cbn [completionOrder]. rewrite insertAt_nil.
  destruct (hd 0 sched) as [|n]; unfold insertAt; simpl; [done|].
  by rewrite take_nil, drop_nil.
Qed.

(** No order of completion is left out by the schedules. *)
Lemma completionOrder_any (tasks : list task) : ∀ order,
  tasks ≡ₚ order → ∃ sched, completionOrder sched tasks = order.
Proof.
  induction tasks as [|f rest IH]; intros order Hperm.
  - apply Permutation_nil in Hperm as ->. by exists [].
  - assert (Hin : f ∈ order) by (rewrite <- Hperm; left).
    apply list_elem_of_split in Hin as (l1 & l2 & ->).
    apply Permutation_cons_app_inv in Hperm.
    destruct (IH _ Hperm) as [sched Hs].
    exists (length l1 :: sched). simpl. rewrite Hs. unfold insertAt.
    by rewrite take_app_length, drop_app_length.
Qed.

Lemma visitOrder_perm {A} (seed : list nat) (l : list A) :
  visitOrder seed l ≡ₚ l.
Proof.
  revert seed. induction l as [|x rest IH]; intros seed; [done|].
  simpl. rewrite insertAt_perm. by rewrite IH.
Qed.

(** No order of visit is left out by the seeds. *)
Lemma visitOrder_any {A} (l : list A) : ∀ order,
  l ≡ₚ order → ∃ seed, visitOrder seed l = order.
Proof.
  induction l as [|x rest IH]; intros order Hperm.
  - apply Permutation_nil in Hperm as ->. by exists [].
  - assert (Hin : x ∈ order) by (rewrite <- Hperm; left).
    apply list_elem_of_split in Hin as (l1 & l2 & ->).
    apply Permutation_cons_app_inv in Hperm.
    destruct (IH _ Hperm) as [seed Hs].
    exists (length l1 :: seed). simpl. rewrite Hs. unfold insertAt.
    by rewrite take_app_length, drop_app_length.
Qed.

Lemma sent_length_le (rs : list (com + error)) : length (sent rs) ≤ length rs.
Proof. induction rs as [|[m|e] rs IH]; simpl; lia. Qed.

Lemma results_length (c : Client) (order : list task) : ∀ ctx,
  length (results c ctx order) = length order.
Proof. induction order as [|f rest IH]; intros ctx; simpl; [done|by rewrite IH]. Qed.

(** The error a run fails with is the error of the goroutine that failed
    first: nothing before it in the order of completion is an error. *)
Lemma firstError_Some (rs : list (com + error)) (err : error) :
  firstError rs = Some err ↔
  ∃ i, rs !! i = Some (inr err) ∧ ∀ j, j < i → ∃ m, rs !! j = Some (inl m).
Proof.
  induction rs as [|[m|e] rs IH]; simpl.
  - split; [done|]. by intros (i & Hi & _).
  - rewrite IH. split.
    + intros (i & Hi & Hbefore). exists (S i). split; [done|].
      intros [|j] Hj; [by exists m|]. apply Hbefore. lia.
    + intros ([|i] & Hi & Hbefore); [done|]. exists i. split; [done|].
      intros j Hj. apply (Hbefore (S j)). lia.
  - split.
    + intros [= ->]. exists 0. split; [done|]. intros j Hj. lia.
    + intros ([|i] & Hi & Hbefore).
      * by injection Hi as ->.
      * destruct (Hbefore 0) as [m Hm]; [lia|done].
Qed.

Lemma firstError_None (rs : list (com + error)) :
  firstError rs = None ↔ inl <$> sent rs = rs.
Proof.
  induction rs as [|[m|e] rs IH]; cbn [sent firstError]; [done| |].
  - rewrite fmap_cons, IH. split; [congruence|]. by intros [= ?].
  - split; [done|]. intros Heq.
    assert (Hlen : length (inl (B:=error) <$> sent rs) = length (inr e :: rs))
      by (by rewrite Heq).
    rewrite length_fmap in Hlen. simpl in Hlen.
    pose proof (sent_length_le rs). lia.
Qed.

(** [Wait] returns exactly when everything sent fits in the channel; it then
    holds what was sent, in the order of the sends, and the first error. *)
Lemma wait_fits (c : Client) (order : list task) :
  ∀ ctx ch gerr,
    length (buf ch) + length (sent (results c ctx order)) ≤ cap ch →
    wait c ctx order ch gerr
    = Waited (mkChan (cap ch) (buf ch ++ sent (results c ctx order)))
             (match gerr with
              | Some e => Some e
              | None => firstError (results c ctx order)
              end).
Proof.
  induction order as [|f rest IH]; intros ctx ch gerr Hfit; simpl in *.
  - rewrite app_nil_r. destruct ch, gerr; done.
  - destruct (call c ctx f) as [m|e]; simpl in *.
    + unfold send. rewrite decide_True by lia.
      rewrite IH; simpl; [|rewrite length_app; simpl; lia].
      by rewrite <- app_assoc.
    + rewrite IH by done. by destruct gerr.
Qed.

Lemma wait_overflow (c : Client) (order : list task) :
  ∀ ctx ch gerr,
    cap ch < length (buf ch) + length (sent (results c ctx order)) →
    length (buf ch) ≤ cap ch →
    ∃ ch', wait c ctx order ch gerr = Stuck ch'.
Proof.
  induction order as [|f rest IH]; intros ctx ch gerr Hover Hle; simpl in *.
  - lia.
  - destruct (call c ctx f) as [m|e]; simpl in *.
    + unfold send. destruct (decide (length (buf ch) < cap ch)); [|by eexists].
      apply IH; simpl; rewrite ?length_app; simpl; lia.
    + by apply IH.
Qed.

End Group.

(** ** Aggregation *)

Section Aggregation.

Lemma call_populatedOnce (c : Client) (ctx : nat) (f : task) (m : com) :
  call c ctx f = inl m → populatedOnce m ∧ p m = taskProject f.
Proof.
  destruct f as [project cl|project vm]; simpl.
  - destruct (gke_create c ctx project cl) as [i|e]; [|done].
    intros [= <-]. split; [left|]; simpl; eauto.
  - destruct (gce_create c ctx project vm) as [i|e]; [|done].
    intros [= <-]. split; [right|]; simpl; eauto.
Qed.

Lemma sent_populatedOnce (c : Client) (order : list task) : ∀ ctx,
  Forall populatedOnce (sent (results c ctx order)).
Proof.
  induction order as [|f rest IH]; intros ctx; simpl; [constructor|].
  destruct (call c ctx f) as [m|e] eqn:Hc; simpl; [|apply IH].
  constructor; [|apply IH]. by apply call_populatedOnce in Hc as [? _].
Qed.

Lemma sent_projects (c : Client) (order : list task) : ∀ ctx,
  firstError (results c ctx order) = None →
  p <$> sent (results c ctx order) = taskProject <$> order.
Proof.
  induction order as [|f rest IH]; intros ctx; cbn [results]; [done|].
  destruct (call c ctx f) as [m|e] eqn:Hc; cbn [sent firstError]; [|done].
  intros Hn. rewrite !fmap_cons, IH by done.
  by apply call_populatedOnce in Hc as [_ ->].
Qed.

Lemma sent_all (c : Client) (order : list task) (ctx : nat) :
  firstError (results c ctx order) = None →
  length (sent (results c ctx order)) = length order.
Proof.
  intros Hn. apply sent_projects in Hn.
  apply (f_equal length) in Hn. by rewrite !length_fmap in Hn.
Qed.

Lemma wait_populatedOnce (c : Client) (order : list task) :
  ∀ ctx ch gerr,
    Forall populatedOnce (buf ch) →
    Forall populatedOnce (buf (channelOf (wait c ctx order ch gerr))).
Proof.
  induction order as [|f rest IH]; intros ctx ch gerr Hch; simpl; [done|].
  destruct (call c ctx f) as [m|e] eqn:Hcall; [|by apply IH].
  unfold send. destruct (decide _); [|done].
  apply IH. simpl. apply Forall_app. split; [done|].
  constructor; [|constructor]. by apply call_populatedOnce in Hcall as [? _].
Qed.

Lemma collect_populatedOnce (info : ResourceInfo) (m : com) :
  populatedOnce m → is_Some (collect info m).
Proof.
  unfold collect. intros [[[x Hx] Hv]|[Hc [x Hx]]].
  - rewrite Hx. eauto.
  - rewrite Hc, Hx. eauto.
Qed.

(** The nil dereference of the [else] branch needs a [com] with neither
    pointer set. *)
Lemma aggregate_populatedOnce (coms : list com) : ∀ info : ResourceInfo,
  Forall populatedOnce coms → is_Some (aggregate coms info).
Proof.
  induction coms as [|m rest IH]; intros info Hall; simpl; [eauto|].
  inversion Hall as [|? ? Hm Hrest]; subst.
  destruct (collect_populatedOnce info m Hm) as [info' ->]. by apply IH.
Qed.

Lemma totalInstances_insert (info : ResourceInfo) (k : string) (pi : ProjectInfo) :
  totalInstances (<[k := pi]> info) + instances (default noProject (info !! k))
  = instances pi + totalInstances info.
Proof.
  unfold totalInstances.
  destruct (info !! k) as [old|] eqn:Hk; simpl.
  - rewrite (map_fold_delete_L _ _ k old info); [|intros; lia|done].
    rewrite <- (insert_delete_eq info).
    rewrite map_fold_insert_L; [lia|intros; lia|apply lookup_delete_eq].
  - rewrite map_fold_insert_L; [unfold instances; simpl; lia|intros; lia|done].
Qed.

Lemma clustersOf_cons (project : string) (m : com) (rest : list com) :
  clustersOf project (m :: rest) = clustersOf project [m] ++ clustersOf project rest.
Proof. unfold clustersOf. simpl. by destruct (decide _), (ci m). Qed.

Lemma vmsOf_cons (project : string) (m : com) (rest : list com) :
  vmsOf project (m :: rest) = vmsOf project [m] ++ vmsOf project rest.
Proof. unfold vmsOf. simpl. by destruct (decide _), (ci m), (vmi m). Qed.

(** One iteration stores, under the project of the [com], the entry found
    there (a fresh one on first sight) with the info appended to its list. *)
Lemma collect_insert (info info' : ResourceInfo) (m : com) :
  collect info m = Some info' →
  let pi := default noProject (info !! p m) in
  info' = <[p m := mkProjectInfo (Clusters pi ++ clustersOf (p m) [m])
                                 (VMs pi ++ vmsOf (p m) [m])]> info ∧
  length (clustersOf (p m) [m]) + length (vmsOf (p m) [m]) = 1.
Proof.
  unfold collect, clustersOf, vmsOf. fold noProject. simpl.
  rewrite !decide_True by done.
  destruct (ci m) as [x|]; [|destruct (vmi m) as [x|]; [|done]];
    intros [= <-]; simpl; rewrite ?app_nil_r; done.
Qed.

Lemma collect_spec (info info' : ResourceInfo) (m : com) :
  collect info m = Some info' →
  dom info' = {[p m]} ∪ dom info ∧
  totalInstances info' = S (totalInstances info) ∧
  ∀ project,
    default noProject (info' !! project)
    = mkProjectInfo
        (Clusters (default noProject (info !! project)) ++ clustersOf project [m])
        (VMs (default noProject (info !! project)) ++ vmsOf project [m]).
Proof.
  intros Hc. apply collect_insert in Hc as [-> Hone]. cbv zeta in Hone.
  split; [apply dom_insert_L|]. split.
  - pose proof (totalInstances_insert info (p m)
        (mkProjectInfo
           (Clusters (default noProject (info !! p m)) ++ clustersOf (p m) [m])
           (VMs (default noProject (info !! p m)) ++ vmsOf (p m) [m]))) as Ht.
    unfold instances in Ht. cbn [Clusters VMs] in Ht.
    rewrite !length_app in Ht. lia.
  - intros project. destruct (decide (p m = project)) as [<-|Hne].
    + by rewrite lookup_insert_eq.
    + rewrite lookup_insert_ne by done.
      unfold clustersOf, vmsOf. simpl. rewrite !decide_False by done.
      rewrite !app_nil_r. by destruct (default noProject (info !! project)).
Qed.

(** The whole loop: an entry for every project some [com] names (and no
    other new entry), one instance per [com], each list extended in the
    order of arrival. *)
Lemma aggregate_spec (coms : list com) : ∀ info info' : ResourceInfo,
  aggregate coms info = Some info' →
  dom info' = list_to_set (p <$> coms) ∪ dom info ∧
  totalInstances info' = length coms + totalInstances info ∧
  ∀ project,
    default noProject (info' !! project)
    = mkProjectInfo
        (Clusters (default noProject (info !! project)) ++ clustersOf project coms)
        (VMs (default noProject (info !! project)) ++ vmsOf project coms).
Proof.
  induction coms as [|m rest IH]; intros info info'; cbn [aggregate].
  - intros [= <-]. split; [by rewrite fmap_nil, list_to_set_nil, union_empty_l_L|].
    split; [done|].
    intros project. unfold clustersOf, vmsOf. simpl. rewrite !app_nil_r.
    by destruct (default noProject (info !! project)).
  - destruct (collect info m) as [info1|] eqn:Hc; [|done]. intros Hagg.
    apply collect_spec in Hc as (Hd1 & Ht1 & Hp1).
    apply IH in Hagg as (Hd & Ht & Hp).
    split; [rewrite Hd, Hd1, fmap_cons, list_to_set_cons; by rewrite (assoc_L (∪)), (comm_L (∪) _ {[p m]})|].
    split; [cbn [length]; lia|].
    intros project. rewrite Hp, Hp1. cbn [Clusters VMs].
    by rewrite (clustersOf_cons _ m rest), (vmsOf_cons _ m rest), !app_assoc.
Qed.

End Aggregation.

(** ** Runs of construct *)

Section Runs.

Lemma construct_dispatched (w : World) (c : Client) (rc : resourceConfigs)
    (res : Resource) (types : nat) (h : heap) (s : dstate) :
  gcpClient w = Some c →
  goGroups c types rc (mkDstate h []) = (s, Next tt) →
  construct w rc res types h = mkRun (afterDispatch w c s) (d_tasks s) (d_heap s).
Proof.
  intros Hc Hgo. unfold construct, afterDispatch. rewrite Hc, Hgo.
  set (order := completionOrder (schedule w) (d_tasks s)).
  destruct (decide (length (sent (results c 0 order)) ≤ maxChannels)) as [Hfit|Hover].
  - rewrite wait_fits by (simpl; lia). simpl.
    destruct (firstError (results c 0 order)); [done|].
    destruct (aggregate _ _) as [info|]; [|done].
    by destruct (marshal w info).
  - destruct (wait_overflow c order 0 (makeChan maxChannels) None) as [ch ->];
      simpl; [lia|lia|done].
Qed.

Lemma construct_no_client (w : World) (rc : resourceConfigs) (res : Resource)
    (types : nat) (h : heap) :
  gcpClient w = None →
  construct w rc res types h
  = mkRun (Returned None None (Some ErrClientNotSet)) [] h.
Proof. intros Hc. unfold construct. by rewrite Hc. Qed.

Lemma construct_returned_early (w : World) (c : Client) (rc : resourceConfigs)
    (res : Resource) (types : nat) (h : heap) (s : dstate) (err : error) :
  gcpClient w = Some c →
  goGroups c types rc (mkDstate h []) = (s, Return err) →
  construct w rc res types h
  = mkRun (Returned None None (Some err)) (d_tasks s) (d_heap s).
Proof. intros Hc Hgo. unfold construct. by rewrite Hc, Hgo. Qed.

Lemma construct_panicked_early (w : World) (c : Client) (rc : resourceConfigs)
    (res : Resource) (types : nat) (h : heap) (s : dstate) :
  gcpClient w = Some c →
  goGroups c types rc (mkDstate h []) = (s, Panic) →
  construct w rc res types h = mkRun Panicked (d_tasks s) (d_heap s).
Proof. intros Hc Hgo. unfold construct. by rewrite Hc, Hgo. Qed.

(** A run that hands back an inventory went all the way: the client was set,
    the dispatch loop went through, every goroutine sent its [com], all of
    them fitted in the channel and the inventory could be stored. *)
Lemma construct_inventory_inv (w : World) (rc : resourceConfigs) (res : Resource)
    (types : nat) (h : heap) (ud : option UserData) (info : ResourceInfo)
    (err : option error) :
  r_outcome (construct w rc res types h) = Returned ud (Some info) err →
  ∃ c s,
    gcpClient w = Some c ∧
    goGroups c types rc (mkDstate h []) = (s, Next tt) ∧
    r_tasks (construct w rc res types h) = d_tasks s ∧
    let rs := results c 0 (completionOrder (schedule w) (d_tasks s)) in
    length (sent rs) ≤ maxChannels ∧
    firstError rs = None ∧
    aggregate (sent rs) ∅ = Some info ∧
    ud = Some {[ResourceConfigType := info]} ∧ err = None.
Proof.
  destruct (gcpClient w) as [c|] eqn:Hc;
    [|by rewrite construct_no_client].
  destruct (goGroups c types rc (mkDstate h [])) as [s [[]|e|]] eqn:Hgo.
  - rewrite (construct_dispatched w c rc res types h s Hc Hgo). simpl.
    unfold afterDispatch.
    destruct (decide _) as [Hfit|]; [|done].
    destruct (firstError _) eqn:Hfirst; [done|].
    destruct (aggregate _ _) as [info'|] eqn:Hagg; [|done].
    destruct (marshal w info'); [done|]. intros [= <- <- <-].
    exists c, s. done.
  - by rewrite (construct_returned_early w c rc res types h s e Hc Hgo).
  - by rewrite (construct_panicked_early w c rc res types h s Hc Hgo).
Qed.

Lemma construct_tasks (w : World) (c : Client) (rc : resourceConfigs)
    (res : Resource) (types : nat) (h : heap) :
  gcpClient w = Some c →
  r_tasks (construct w rc res types h)
  = d_tasks (goGroups c types rc (mkDstate h [])).1.
Proof.
  intros Hc. unfold construct. rewrite Hc.
  destruct (goGroups c types rc (mkDstate h [])) as [s [[]|e|]]; simpl; try done.
  destruct (wait _ _ _ _ _) as [ch [e|]|ch]; simpl; try done.
  destruct (aggregate _ _) as [info|]; simpl; try done.
  by destruct (marshal w info).
Qed.

(** A run hands back an inventory when the dispatch loop went through, no
    more goroutines were started than the channel holds, every creation
    succeeded and the inventory could be stored. *)
Lemma construct_succeeds (w : World) (c : Client) (rc : resourceConfigs)
    (res : Resource) (types : nat) (h : heap) (s : dstate) :
  gcpClient w = Some c →
  goGroups c types rc (mkDstate h []) = (s, Next tt) →
  length (d_tasks s) ≤ maxChannels →
  firstError (results c 0 (completionOrder (schedule w) (d_tasks s))) = None →
  (∀ info, marshal w info = None) →
  ∃ info, r_outcome (construct w rc res types h)
          = Returned (Some {[ResourceConfigType := info]}) (Some info) None.
Proof.
  intros Hc Hgo Hcap Hfirst Hmar.
  rewrite (construct_dispatched w c rc res types h s Hc Hgo). simpl.
  unfold afterDispatch.
  set (rs := results c 0 (completionOrder (schedule w) (d_tasks s))) in *.
  assert (Hlen : length (sent rs) ≤ maxChannels).
  { pose proof (sent_length_le rs) as Hle. unfold rs in Hle at 2.
    rewrite results_length, completionOrder_length in Hle. lia. }
  rewrite decide_True, Hfirst by done.
  destruct (aggregate_populatedOnce (sent rs) ∅) as [info ->].
  { apply sent_populatedOnce. }
  exists info. by rewrite Hmar.
Qed.

End Runs.

(** * The claims *)

Section Claims.

(** A run blocks for ever as soon as more goroutines succeed than the
    channel has room for. *)
Lemma construct_blocks (w : World) (c : Client) (rc : resourceConfigs)
    (res : Resource) (types : nat) (h : heap) (s : dstate) :
  gcpClient w = Some c →
  goGroups c types rc (mkDstate h []) = (s, Next tt) →
  maxChannels <
    length (sent (results c 0 (completionOrder (schedule w) (d_tasks s)))) →
  r_outcome (construct w rc res types h) = Blocked.
Proof.
  intros Hc Hgo Hover. rewrite (construct_dispatched w c rc res types h s Hc Hgo).
  simpl. unfold afterDispatch. rewrite decide_False by lia. done.
Qed.

(** C1. The result channel is made with the fixed capacity [maxChannels] =
    100, whatever the number of goroutines started. On a request of one
    spec with 101 clusters, all created successfully, 101 goroutines are
    started against a capacity of 100: the last send never completes,
    [Wait] never returns and [construct] stays blocked. *)
Theorem C1_fixed_capacity_blocks :
  cap (makeChan maxChannels) = 100 ∧
  length (r_tasks (construct (worldOf echoClient) manyClusters projOne 0 onePool))
  = 101 ∧
  r_outcome (construct (worldOf echoClient) manyClusters projOne 0 onePool)
  = Blocked.
Proof. vm_compute. done. Qed.

(** The caller's map loses one project per spec of the request: [typesCopy]
    is the caller's map, not a copy of it. *)
Lemma construct_pops_from_caller (w : World) (c : Client) (rc : resourceConfigs)
    (res : Resource) (types : nat) (h : heap) (s : dstate) (k : string) :
  gcpClient w = Some c →
  zonesListed c →
  goGroups c types rc (mkDstate h []) = (s, Next tt) →
  length (mapIndex (r_heap (construct w rc res types h)) types k)
    + specCount k rc
  = length (mapIndex h types k).
Proof.
  intros Hc Hz Hgo. rewrite (construct_dispatched w c rc res types h s Hc Hgo).
  simpl.
  destruct (goGroups_cases c types rc Hz (mkDstate h []))
    as [(s' & Hgo' & Hcount)|(? & ? & ? & ? & ? & ? & ? & _ & _ & _ & Hret)].
  - rewrite Hgo in Hgo'. injection Hgo' as <-. apply Hcount.
  - rewrite Hgo in Hret. done.
Qed.

(** C2. [typesCopy := types] copies the reference: the pops are writes into
    the map the caller passed. After a run on a pool holding ["proj-1"], the
    caller's entry for ["pool-X"] is empty. *)
Theorem C2_pop_writes_caller_map :
  mapIndex onePool 0 "pool-X" = [projOne] ∧
  r_outcome (construct (worldOf echoClient) oneOfEach projOne 0 onePool)
  = Returned
      (Some {[ResourceConfigType :=
                {["proj-1" := mkProjectInfo [mkInstance "cluster" "us-a"]
                                            [mkInstance "vm" "us-b"]]}]})
      (Some {["proj-1" := mkProjectInfo [mkInstance "cluster" "us-a"]
                                        [mkInstance "vm" "us-b"]]})
      None ∧
  mapIndex (r_heap (construct (worldOf echoClient) oneOfEach projOne 0 onePool))
           0 "pool-X" = [].
Proof. vm_compute. done. Qed.

(** C8. [newStringRing] builds a ring from an empty zone list without
    failing, [construct] calls [next] on it for a spec with no zone of its
    own, and [next] indexes the empty list: the run panics. *)
Theorem C8_empty_ring_panics :
  newStringRing [] = mkRing 0 [] ∧
  next (newStringRing []) = None ∧
  r_outcome (construct (worldOf noZoneClient) oneOfEach projOne 0 onePool)
  = Panicked.
Proof. vm_compute. done. Qed.

(** C6. On a ring built from a zone list that is not empty, [k] successive
    calls of [next] return the zones in the order supplied, starting over
    at the first after the last: call number [i] returns the zone at
    position [i mod length zones], and the cursor ends at [k mod length
    zones]. For a ring over [a, b, c] the first four calls return
    a, b, c, a. *)
Theorem C6_next_round_robin (zones : list string) (k : nat) (a b c : string) :
  zones ≠ [] →
  (∃ vs, nexts k (newStringRing zones)
         = Some (vs, mkRing (k mod length zones) zones) ∧
         length vs = k ∧
         ∀ i, i < k → vs !! i = zones !! (i mod length zones)) ∧
  fst <$> nexts 4 (newStringRing [a; b; c]) = Some [a; b; c; a].
Proof.
  intros Hne. split; [|done].
  destruct (nexts_wf k (newStringRing zones) (newStringRing_wf zones Hne))
    as (vs & Hvs & Hlen & Hnth).
  exists vs. simpl in *. done.
Qed.

Lemma C6_next_round_robin_witness :
  ["us-a"; "us-b"] ≠ [] ∧
  ((∃ vs, nexts 5 (newStringRing ["us-a"; "us-b"])
          = Some (vs, mkRing (5 mod length ["us-a"; "us-b"]) ["us-a"; "us-b"]) ∧
          length vs = 5 ∧
          ∀ i, i < 5 → vs !! i = ["us-a"; "us-b"] !! (i mod length ["us-a"; "us-b"])) ∧
   fst <$> nexts 4 (newStringRing ["a"; "b"; "c"]) = Some ["a"; "b"; "c"; "a"]).
Proof.
  split; [discriminate|].
  apply (C6_next_round_robin ["us-a"; "us-b"] 5 "a" "b" "c"). discriminate.
Defined.

(** C3, as stated, fails: on two specs for a pool of one project, the
    cluster of the first spec is started and its creation fails with a quota
    error; the second spec finds the pool empty and [construct] returns the
    pool error, not the error of the failing creation. *)
Lemma C3_counterexample :
  ¬ (∀ (w : World) (c : Client) (rc : resourceConfigs) (res : Resource)
       (types : nat) (h : heap) (i : nat) (err : error),
       gcpClient w = Some c →
       results c 0 (completionOrder (schedule w)
                      (r_tasks (construct w rc res types h))) !! i
         = Some (inr err) →
       (∀ j, j < i →
          ∃ m, results c 0 (completionOrder (schedule w)
                              (r_tasks (construct w rc res types h))) !! j
               = Some (inl m)) →
       r_outcome (construct w rc res types h)
       = Returned None None (Some err)).
Proof.
  intros H.
  assert (Hr := H (worldOf quotaClient) quotaClient twoSpecs projOne 0 onePool
                  0 (ErrExternal "quota exceeded") eq_refl eq_refl
                  (λ j Hj, False_ind _ (Nat.nlt_0_r j Hj))).
  vm_compute in Hr. discriminate Hr.
Qed.

(** C3, amended. When the dispatch loop goes through (the client is set, no
    spec finds its pool empty, zone listing does not fail), the creations
    that succeed are no more than the channel holds, and some creation
    fails, then [construct] returns the error of the goroutine that failed
    first in the order of completion, with neither user data nor inventory.
    The bound is on the creations that succeed, not on those started. *)
Theorem C3_first_error_returned (w : World) (c : Client) (rc : resourceConfigs)
    (res : Resource) (types : nat) (h : heap) (s : dstate) (i : nat)
    (err : error) :
  gcpClient w = Some c →
  goGroups c types rc (mkDstate h []) = (s, Next tt) →
  length (sent (results c 0 (completionOrder (schedule w) (d_tasks s))))
    ≤ maxChannels →
  results c 0 (completionOrder (schedule w) (d_tasks s)) !! i = Some (inr err) →
  (∀ j, j < i →
     ∃ m, results c 0 (completionOrder (schedule w) (d_tasks s)) !! j
          = Some (inl m)) →
  construct w rc res types h
  = mkRun (Returned None None (Some err)) (d_tasks s) (d_heap s).
Proof.
  intros Hc Hgo Hcap Hi Hbefore.
  rewrite (construct_dispatched w c rc res types h s Hc Hgo). f_equal.
  unfold afterDispatch.
  set (rs := results c 0 (completionOrder (schedule w) (d_tasks s))) in *.
  rewrite decide_True by done.
  assert (Hfirst : firstError rs = Some err)
    by (apply firstError_Some; eauto).
  by rewrite Hfirst.
Qed.

Lemma C3_first_error_returned_witness :
  length (r_tasks (construct (worldOf firstFailsClient) manyClusters projOne 0
                     onePool)) = 101 ∧
  length (sent (results firstFailsClient 0
                  (completionOrder []
                     (r_tasks (construct (worldOf firstFailsClient) manyClusters
                                 projOne 0 onePool))))) = 100 ∧
  r_outcome (construct (worldOf firstFailsClient) manyClusters projOne 0 onePool)
  = Returned None None (Some (ErrExternal "quota exceeded")).
Proof.
  split; [vm_compute; reflexivity|]. split; [vm_compute; reflexivity|].
  refine (f_equal r_outcome
            (C3_first_error_returned
               (worldOf firstFailsClient) firstFailsClient manyClusters
               projOne 0 onePool
               (goGroups firstFailsClient 0 manyClusters (mkDstate onePool [])).1
               0 (ErrExternal "quota exceeded") _ _ _ _ _)).
  - reflexivity.
  - vm_compute. reflexivity.
  - vm_compute. lia.
  - vm_compute. reflexivity.
  - intros j Hj. lia.
Defined.

(** C4, as stated, fails: with two specs for a pool of one project and a
    zone listing that fails, the run returns the zone listing error at the
    first spec, not the pool error. *)
Lemma C4_counterexample :
  ¬ (∀ (w : World) (rc : resourceConfigs) (res : Resource) (types : nat)
       (h : heap) (k : string),
       length (mapIndex h types k) < specCount k rc →
       r_outcome (construct w rc res types h)
       = Returned None None (Some ErrRunningOutOfProject)).
Proof.
  intros H.
  assert (Hr := H (worldOf zoneErrorClient) twoSpecs projOne 0 onePool "pool-X").
  vm_compute in Hr. specialize (Hr (le_n 2)). discriminate Hr.
Qed.

(** C4, amended. With the client set and zone listing answering every
    project with a zone list that is not empty: when the specs of some kind
    outnumber the projects of that kind in the pool, [construct] returns the
    pool error with neither user data nor inventory; it returns at the first
    spec that finds its pool empty, and the goroutines it has started are
    those of the request cut just before that spec: none for that spec, none
    for a later one. *)
Theorem C4_pool_exhaustion (w : World) (c : Client) (rc : resourceConfigs)
    (res : Resource) (types : nat) (h : heap) (k : string) :
  gcpClient w = Some c →
  zonesListed c →
  length (mapIndex h types k) < specCount k rc →
  ∃ pre k' pcs pc post rest s,
    rc = pre ++ (k', pcs ++ pc :: post) :: rest ∧
    goGroups c types (pre ++ [(k', pcs)]) (mkDstate h []) = (s, Next tt) ∧
    mapIndex (d_heap s) types k' = [] ∧
    construct w rc res types h
    = mkRun (Returned None None (Some ErrRunningOutOfProject))
            (d_tasks s) (d_heap s) ∧
    r_tasks (construct w rc res types h)
    = r_tasks (construct w (pre ++ [(k', pcs)]) res types h).
Proof.
  intros Hc Hz Hmore.
  destruct (goGroups_cases c types rc Hz (mkDstate h []))
    as [(s & Hgo & Hcount)
       |(pre & k' & pcs & pc & post & rest & s & -> & Hgo & Hemp & Hret)].
  - specialize (Hcount k). unfold avail in Hcount. simpl in Hcount. lia.
  - exists pre, k', pcs, pc, post, rest, s.
    split; [done|]. split; [done|]. split; [done|].
    rewrite (construct_returned_early w c _ res types h s _ Hc Hret).
    split; [done|].
    by rewrite (construct_dispatched w c _ res types h s Hc Hgo).
Qed.

Lemma echoClient_zonesListed : zonesListed echoClient.
Proof. intros project. exists ["us-a"; "us-b"]. split; [reflexivity|discriminate]. Defined.

Lemma C4_pool_exhaustion_witness :
  length (mapIndex onePool 0 "pool-X") < specCount "pool-X" twoSpecs ∧
  ∃ pre k' pcs pc post rest s,
    twoSpecs = pre ++ (k', pcs ++ pc :: post) :: rest ∧
    goGroups echoClient 0 (pre ++ [(k', pcs)]) (mkDstate onePool [])
    = (s, Next tt) ∧
    mapIndex (d_heap s) 0 k' = [] ∧
    construct (worldOf echoClient) twoSpecs projOne 0 onePool
    = mkRun (Returned None None (Some ErrRunningOutOfProject))
            (d_tasks s) (d_heap s) ∧
    r_tasks (construct (worldOf echoClient) twoSpecs projOne 0 onePool)
    = r_tasks (construct (worldOf echoClient) (pre ++ [(k', pcs)]) projOne 0 onePool).
Proof.
  split; [vm_compute; lia|].
  apply (C4_pool_exhaustion (worldOf echoClient) echoClient twoSpecs projOne 0
           onePool "pool-X").
  - reflexivity.
  - exact echoClient_zonesListed.
  - vm_compute. lia.
Defined.

(** C5, as stated, fails: on two specs for a pool of one project, the one
    creation that is started succeeds, the second spec finds the pool empty
    and [construct] returns the pool error: there is no inventory. *)
Lemma C5_counterexample :
  ¬ (∀ (w : World) (c : Client) (rc : resourceConfigs) (res : Resource)
       (types : nat) (h : heap),
       gcpClient w = Some c →
       firstError (results c 0 (completionOrder (schedule w)
                                  (r_tasks (construct w rc res types h))))
       = None →
       ∃ ud info err,
         r_outcome (construct w rc res types h) = Returned ud (Some info) err ∧
         totalInstances info = length (r_tasks (construct w rc res types h))).
Proof.
  intros H.
  assert (Hall : firstError
                   (results echoClient 0
                      (completionOrder (schedule (worldOf echoClient))
                         (r_tasks (construct (worldOf echoClient) twoSpecs
                                     projOne 0 onePool)))) = None)
    by (vm_compute; reflexivity).
  destruct (H (worldOf echoClient) echoClient twoSpecs projOne 0 onePool
              eq_refl Hall) as (ud & info & err & Hout & _).
  vm_compute in Hout. discriminate Hout.
Qed.

(** C5, amended. When the dispatch loop goes through (the client is set, no
    spec finds its pool empty, zone listing does not fail), no more
    goroutines are started than the channel holds and every creation
    succeeds, the aggregation loop builds an inventory that has an entry for
    a project exactly when some goroutine was started on that project, in
    which the clusters and VMs of all entries together are as many as the
    goroutines started, and in which the entry of a project lists the
    cluster infos and the VM infos its goroutines sent, each in the order of
    arrival. [construct] returns that inventory with the user data holding
    it, unless [UserData.Set] fails to store it: then it returns that error
    alone. *)
Theorem C5_aggregation_complete (w : World) (c : Client) (rc : resourceConfigs)
    (res : Resource) (types : nat) (h : heap) (s : dstate) :
  gcpClient w = Some c →
  goGroups c types rc (mkDstate h []) = (s, Next tt) →
  length (d_tasks s) ≤ maxChannels →
  firstError (results c 0 (completionOrder (schedule w) (d_tasks s))) = None →
  ∃ (info : ResourceInfo) (coms : list com),
    inl <$> coms = results c 0 (completionOrder (schedule w) (d_tasks s)) ∧
    aggregate coms ∅ = Some info ∧
    construct w rc res types h
    = mkRun match marshal w info with
            | None =>
                Returned (Some {[ResourceConfigType := info]}) (Some info) None
            | Some e => Returned None None (Some e)
            end (d_tasks s) (d_heap s) ∧
    (∀ project,
       is_Some (info !! project) ↔ project ∈ taskProject <$> d_tasks s) ∧
    totalInstances info = length (d_tasks s) ∧
    ∀ project,
      default noProject (info !! project)
      = mkProjectInfo (clustersOf project coms) (vmsOf project coms).
Proof.
  intros Hc Hgo Hcap Hfirst.
  set (order := completionOrder (schedule w) (d_tasks s)) in *.
  assert (Hlen : length (sent (results c 0 order)) = length (d_tasks s)).
  { rewrite (sent_all c order 0 Hfirst). apply completionOrder_length. }
  destruct (aggregate_populatedOnce (sent (results c 0 order)) ∅) as [info Hagg];
    [apply sent_populatedOnce|].
  exists info, (sent (results c 0 order)).
  split; [by apply firstError_None|]. split; [done|]. split.
  - rewrite (construct_dispatched w c rc res types h s Hc Hgo). f_equal.
    unfold afterDispatch. fold order.
    rewrite decide_True, Hfirst, Hagg by lia. by destruct (marshal w info).
  - apply aggregate_spec in Hagg as (Hdom & Htotal & Hlists).
    split; [|split].
    + intros project. rewrite <- elem_of_dom, Hdom, dom_empty_L, union_empty_r_L.
      rewrite elem_of_list_to_set, (sent_projects c order 0 Hfirst).
      unfold order. by rewrite completionOrder_perm.
    + rewrite Htotal. unfold totalInstances at 1. rewrite map_fold_empty. lia.
    + intros project. rewrite Hlists, lookup_empty. done.
Qed.

Lemma C5_aggregation_complete_witness :
  goGroups echoClient 0 oneOfEach (mkDstate onePool [])
  = (mkDstate {[ 0 := {[ "pool-X" := [] ]} ]}
       [CreateCluster "proj-1" (mkCluster "us-a" "");
        CreateVm "proj-1" (mkVm "us-b" "")], Next tt) ∧
  firstError
    (results echoClient 0
       (completionOrder []
          [CreateCluster "proj-1" (mkCluster "us-a" "");
           CreateVm "proj-1" (mkVm "us-b" "")])) = None ∧
  ∃ (info : ResourceInfo) (coms : list com),
    inl <$> coms
    = results echoClient 0
        (completionOrder []
           [CreateCluster "proj-1" (mkCluster "us-a" "");
            CreateVm "proj-1" (mkVm "us-b" "")]) ∧
    aggregate coms ∅ = Some info ∧
    construct (worldOf echoClient) oneOfEach projOne 0 onePool
    = mkRun (Returned (Some {[ResourceConfigType := info]}) (Some info) None)
        [CreateCluster "proj-1" (mkCluster "us-a" "");
         CreateVm "proj-1" (mkVm "us-b" "")]
        {[ 0 := {[ "pool-X" := [] ]} ]} ∧
    (∀ project,
       is_Some (info !! project)
       ↔ project ∈ taskProject <$> [CreateCluster "proj-1" (mkCluster "us-a" "");
                                    CreateVm "proj-1" (mkVm "us-b" "")]) ∧
    totalInstances info = 2 ∧
    ∀ project,
      default noProject (info !! project)
      = mkProjectInfo (clustersOf project coms) (vmsOf project coms).
Proof.
  assert (Hgo : goGroups echoClient 0 oneOfEach (mkDstate onePool [])
    = (mkDstate {[ 0 := {[ "pool-X" := [] ]} ]}
         [CreateCluster "proj-1" (mkCluster "us-a" "");
          CreateVm "proj-1" (mkVm "us-b" "")], Next tt))
    by (vm_compute; reflexivity).
  assert (Hcap : 2 ≤ maxChannels) by (unfold maxChannels; lia).
  split; [exact Hgo|]. split; [reflexivity|].
  exact (C5_aggregation_complete (worldOf echoClient) echoClient oneOfEach
           projOne 0 onePool _ eq_refl Hgo Hcap eq_refl).
Defined.

(** C10. Every [com] a goroutine of a run sends has exactly one of [ci] and
    [vmi] set: the cluster info for a cluster, the VM info for a VM. So has
    every [com] on the result channel, whether [Wait] returns or a goroutine
    stays stuck; the aggregation loop never dereferences a nil [vmi]: a run
    panics in its dispatch loop or not at all. *)
Theorem C10_one_variant_per_com (w : World) (c : Client) (rc : resourceConfigs)
    (res : Resource) (types : nat) (h : heap) :
  gcpClient w = Some c →
  (∀ ctx f m, call c ctx f = inl m → populatedOnce m) ∧
  (∀ order,
     Forall populatedOnce
       (buf (channelOf (wait c 0 order (makeChan maxChannels) None))) ∧
     is_Some
       (aggregate
          (buf (channelOf (wait c 0 order (makeChan maxChannels) None))) ∅)) ∧
  (r_outcome (construct w rc res types h) = Panicked →
   (goGroups c types rc (mkDstate h [])).2 = Panic).
Proof.
  intros Hc. split; [|split].
  - intros ctx f m Hcall. by apply call_populatedOnce in Hcall as [? _].
  - intros order.
    assert (Hall : Forall populatedOnce
      (buf (channelOf (wait c 0 order (makeChan maxChannels) None)))).
    { apply wait_populatedOnce. constructor. }
    split; [done|]. by apply aggregate_populatedOnce.
  - destruct (goGroups c types rc (mkDstate h [])) as [s [[]|e|]] eqn:Hgo;
      [|by rewrite (construct_returned_early w c rc res types h s e Hc Hgo)|done].
    rewrite (construct_dispatched w c rc res types h s Hc Hgo). simpl.
    unfold afterDispatch. destruct (decide _); [|done].
    destruct (firstError _); [done|].
    destruct (aggregate_populatedOnce
                (sent (results c 0 (completionOrder (schedule w) (d_tasks s)))) ∅)
      as [info ->]; [apply sent_populatedOnce|].
    by destruct (marshal w info).
Qed.

Lemma C10_one_variant_per_com_witness :
  gcpClient (worldOf echoClient) = Some echoClient ∧
  populatedOnce (mkCom "proj-1" (Some (mkInstance "cluster" "us-a")) None) ∧
  populatedOnce (mkCom "proj-1" None (Some (mkInstance "vm" "us-b"))).
Proof.
  pose proof (C10_one_variant_per_com (worldOf echoClient) echoClient
                oneOfEach projOne 0 onePool eq_refl) as [Hcall _].
  split; [reflexivity|]. split.
  - exact (Hcall 0 (CreateCluster "proj-1" (mkCluster "us-a" "")) _ eq_refl).
  - exact (Hcall 1 (CreateVm "proj-1" (mkVm "us-b" "")) _ eq_refl).
Defined.

(** C7. A spec with a zone of its own keeps it and leaves the ring of its
    project as it is, but a spec without one does not always draw a value:
    [construct] builds the ring from whatever zone list it is given, and on
    an empty list [next] panics. On one spec with a cluster pinned to us-c,
    then a cluster and a VM with no zone, for a project with no zone listed:
    the pinned cluster is started in us-c with the ring untouched, the next
    cluster draws nothing, and the run panics there. *)
Theorem C7_unpinned_spec_draws_nothing :
  gce_listZones noZoneClient "proj-1" = inl [] ∧
  assignZone "us-c" (newStringRing []) = Some ("us-c", newStringRing []) ∧
  assignZone "" (newStringRing []) = None ∧
  construct (worldOf noZoneClient) pinnedThenNot projOne 0 onePool
  = mkRun Panicked [CreateCluster "proj-1" (mkCluster "us-c" "")]
          {[ 0 := {[ "pool-X" := [] ]} ]}.
Proof. vm_compute. done. Qed.

(** C9. The request {"pool-X": [{clusters: [one spec], vms: [one spec]}]}
    with no zone pinned, on a pool whose only project of kind "pool-X" is
    "proj-1", with zones [us-a, us-b], creators that succeed and report the
    zone they were given: the cluster is created in us-a and the VM in us-b,
    whatever the order in which the two creations finish, and the inventory
    maps "proj-1" to one cluster in us-a and one VM in us-b. *)
Theorem C9_one_cluster_one_vm (c : Client) (sched : list nat)
    (mar : ResourceInfo → option error) (res project : Resource)
    (types : nat) (h : heap) (cname vname : nat → string)
    (crest vrest : string) :
  ResName project = "proj-1" →
  mapIndex h types "pool-X" = [project] →
  gce_listZones c "proj-1" = inl ["us-a"; "us-b"] →
  (∀ ctx cl, gke_create c ctx "proj-1" cl
             = inl (mkInstance (cname ctx) (clZone cl))) →
  (∀ ctx vm, gce_create c ctx "proj-1" vm
             = inl (mkInstance (vname ctx) (vmZone vm))) →
  (∀ info, mar info = None) →
  r_tasks (construct (mkWorld (Some c) sched mar)
             [("pool-X", [mkProjectConfig [mkCluster "" crest]
                                          [mkVm "" vrest]])]
             res types h)
  = [CreateCluster "proj-1" (mkCluster "us-a" crest);
     CreateVm "proj-1" (mkVm "us-b" vrest)] ∧
  ∃ n1 n2,
    r_outcome (construct (mkWorld (Some c) sched mar)
                 [("pool-X", [mkProjectConfig [mkCluster "" crest]
                                              [mkVm "" vrest]])]
                 res types h)
    = Returned
        (Some {[ResourceConfigType :=
                  {["proj-1" := mkProjectInfo [mkInstance n1 "us-a"]
                                              [mkInstance n2 "us-b"]]}]})
        (Some {["proj-1" := mkProjectInfo [mkInstance n1 "us-a"]
                                          [mkInstance n2 "us-b"]]})
        None.
Proof.
  intros Hname Hpool Hzones Hcl Hvm Hmar.
  destruct project as [ty name st ow]. simpl in Hname. subst name.
  assert (Hgo :
    goGroups c types
      [("pool-X", [mkProjectConfig [mkCluster "" crest] [mkVm "" vrest]])]
      (mkDstate h [])
    = (mkDstate (mapAssign h types "pool-X" [])
         [CreateCluster "proj-1" (mkCluster "us-a" crest);
          CreateVm "proj-1" (mkVm "us-b" vrest)], Next tt)).
  { cbv [goGroups goProjects goProject bind callPopProject d_heap d_tasks].
    rewrite (popProject_last types "pool-X" h [] _ Hpool).
    cbn [ResName]. rewrite Hzones. reflexivity. }
  rewrite (construct_dispatched (mkWorld (Some c) sched mar) c _ res types h _
             eq_refl Hgo).
  split; [reflexivity|].
  assert (Hcap : 2 ≤ maxChannels) by (unfold maxChannels; lia).
  cbn [r_outcome]. unfold afterDispatch. cbn [schedule d_tasks marshal].
  rewrite completionOrder_pair.
  destruct (hd 0 sched) as [|n]; cbn [results call];
    rewrite !Hcl, !Hvm; cbn [sent firstError length clZone vmZone];
    rewrite decide_True by exact Hcap;
    cbn [aggregate collect p ci vmi];
    rewrite lookup_empty; cbn [default Clusters VMs app];
    rewrite lookup_insert_eq; cbn [default Clusters VMs app];
    rewrite insert_insert_eq, Hmar; do 2 eexists; reflexivity.
Qed.

Lemma C9_one_cluster_one_vm_witness :
  mapIndex onePool 0 "pool-X" = [projOne] ∧
  gce_listZones echoClient "proj-1" = inl ["us-a"; "us-b"] ∧
  r_tasks (construct (mkWorld (Some echoClient) [1] (λ _, None))
             [("pool-X", [mkProjectConfig [mkCluster "" ""] [mkVm "" ""]])]
             projOne 0 onePool)
  = [CreateCluster "proj-1" (mkCluster "us-a" "");
     CreateVm "proj-1" (mkVm "us-b" "")] ∧
  ∃ n1 n2,
    r_outcome (construct (mkWorld (Some echoClient) [1] (λ _, None))
                 [("pool-X", [mkProjectConfig [mkCluster "" ""] [mkVm "" ""]])]
                 projOne 0 onePool)
    = Returned
        (Some {[ResourceConfigType :=
                  {["proj-1" := mkProjectInfo [mkInstance n1 "us-a"]
                                              [mkInstance n2 "us-b"]]}]})
        (Some {["proj-1" := mkProjectInfo [mkInstance n1 "us-a"]
                                          [mkInstance n2 "us-b"]]})
        None.
Proof.
  split; [reflexivity|]. split; [reflexivity|].
  exact (C9_one_cluster_one_vm echoClient [1] (λ _, None) projOne projOne 0
           onePool (λ _, "cluster") (λ _, "vm") "" ""
           eq_refl eq_refl eq_refl (λ _ _, eq_refl) (λ _ _, eq_refl)
           (λ _, eq_refl)).
Defined.

End Claims.

(** * Further properties *)

(** ** The zone ring, beyond the first calls *)

Section RingMore.

(** X1. One full turn: from a ring whose cursor is inside its list, as many
    calls of [next] as the list has zones return every zone once, starting
    at the cursor and going round, and leave the ring as it was. *)
Theorem ring_full_turn (r : stringRing) :
  wfRing r →
  nexts (length (values r)) r
  = Some (drop (index r) (values r) ++ take (index r) (values r), r).
Proof.
  intros Hwf. destruct (nexts_wf (length (values r)) r Hwf) as (vs & -> & Hlen & Hnth).
  unfold wfRing in Hwf. do 2 f_equal.
  - apply list_eq. intros i.
    destruct (decide (i < length (values r))) as [Hi|Hi].
    + rewrite (Hnth i Hi).
      destruct (decide (i < length (values r) - index r)) as [Hlt|Hge].
      * rewrite lookup_app_l by (rewrite length_drop; lia).
        rewrite lookup_drop, Nat.mod_small by lia. done.
      * rewrite lookup_app_r by (rewrite length_drop; lia).
        rewrite length_drop, lookup_take_lt by lia.
        replace (index r + i)
          with ((i - (length (values r) - index r)) + 1 * length (values r)) by lia.
        rewrite Nat.Div0.mod_add, Nat.mod_small by lia. done.
    + rewrite !lookup_ge_None_2; [done| |lia].
      rewrite length_app, length_drop, length_take. lia.
  - destruct r as [i vs']. simpl in *. f_equal.
    replace (i + length vs') with (i + 1 * length vs') by lia.
    rewrite Nat.Div0.mod_add, Nat.mod_small by lia. done.
Qed.

Lemma ring_full_turn_witness :
  wfRing (mkRing 1 ["us-a"; "us-b"; "us-c"]) ∧
  nexts 3 (mkRing 1 ["us-a"; "us-b"; "us-c"])
  = Some (["us-b"; "us-c"; "us-a"], mkRing 1 ["us-a"; "us-b"; "us-c"]).
Proof.
  assert (Hwf : wfRing (mkRing 1 ["us-a"; "us-b"; "us-c"]))
    by (unfold wfRing; simpl; lia).
  split; [exact Hwf|]. exact (ring_full_turn _ Hwf).
Defined.

(** X2. Whatever the ring, calls of [next] that do not panic never change
    the zone list, return only zones of that list, and leave the cursor
    inside the list. *)
Theorem nexts_stays_in_list (k : nat) : ∀ (r r' : stringRing) (vs : list string),
  nexts k r = Some (vs, r') →
  values r' = values r ∧
  length vs = k ∧
  Forall (λ v, v ∈ values r) vs ∧
  (0 < k → wfRing r').
Proof.
  induction k as [|k IH]; intros r r' vs; simpl.
  - intros [= <- <-]. repeat split; [constructor|lia].
  - destruct (next r) as [[v r1]|] eqn:Hn; [|done].
    destruct (nexts k r1) as [[vs1 r2]|] eqn:Hk; [|done].
    intros [= <- <-].
    apply next_Some in Hn as (Hv & Hwf & Hvals & Hidx).
    assert (Hwf1 : wfRing r1).
    { unfold wfRing in *. rewrite Hidx, Hvals. apply Nat.mod_upper_bound. lia. }
    pose proof Hk as Hk0.
    apply IH in Hk as (Hvals' & Hlen & Hall & Hwf').
    split; [congruence|]. split; [simpl; lia|]. split.
    + constructor; [by eapply list_elem_of_lookup_2|].
      by rewrite <- Hvals.
    + intros _. destruct k as [|k]; [|apply Hwf'; lia].
      simpl in Hk0. by injection Hk0 as _ <-.
Qed.

Lemma nexts_stays_in_list_witness :
  nexts 2 (mkRing 1 ["us-a"; "us-b"])
  = Some (["us-b"; "us-a"], mkRing 1 ["us-a"; "us-b"]) ∧
  Forall (λ v, v ∈ ["us-a"; "us-b"]) ["us-b"; "us-a"].
Proof.
  assert (H : nexts 2 (mkRing 1 ["us-a"; "us-b"])
              = Some (["us-b"; "us-a"], mkRing 1 ["us-a"; "us-b"]))
    by reflexivity.
  split; [exact H|].
  exact (proj1 (proj2 (proj2 (nexts_stays_in_list 2 _ _ _ H)))).
Defined.

End RingMore.

(** ** Zone assignment in the two inner loops *)

Section ZonesMore.

(** X27. On a ring whose cursor is inside its list, the cluster loop and then
    the VM loop of a spec go through without a panic and start one
    goroutine per cluster and per VM, in order, each with its zone already
    set: the zone of the spec when it has one, else the value under the
    cursor, which then moves one step. Over the two loops the cursor moves
    by the number of clusters and VMs without a zone, modulo the number of
    zones; the zone list and the heap are left as they were. *)
Theorem zone_assignment_loops (project : Resource) (r : stringRing)
    (cls : list clusterConfig) (vms : list virtualMachineConfig) (s : dstate) :
  wfRing r →
  ∃ ts1 r1 ts2 r2,
    goClusters project r cls s
    = (mkDstate (d_heap s) (d_tasks s ++ ts1), Next r1) ∧
    goVms project r1 vms (mkDstate (d_heap s) (d_tasks s ++ ts1))
    = (mkDstate (d_heap s) ((d_tasks s ++ ts1) ++ ts2), Next r2) ∧
    values r2 = values r ∧
    index r2 = (index r + countEmpty (clZone <$> cls)
                + countEmpty (vmZone <$> vms)) mod length (values r) ∧
    (∀ j cl, cls !! j = Some cl →
       ∃ z, ts1 !! j = Some (CreateCluster (ResName project)
                               (mkCluster z (clRest cl))) ∧
            zoneGiven clZone r cls j cl z) ∧
    (∀ j vm, vms !! j = Some vm →
       ∃ z, ts2 !! j = Some (CreateVm (ResName project)
                               (mkVm z (vmRest vm))) ∧
            zoneGiven vmZone r1 vms j vm z).
Proof.
  intros Hwf.
  destruct (goEach_wf clZone
              (λ z cl, CreateCluster (ResName project) (mkCluster z (clRest cl)))
              cls r s Hwf) as (ts1 & r1 & Hrun1 & Hv1 & Hi1 & _ & Ht1).
  assert (Hwf1 : wfRing r1).
  { unfold wfRing in *. rewrite Hi1, Hv1. apply Nat.mod_upper_bound. lia. }
  destruct (goEach_wf vmZone
              (λ z vm, CreateVm (ResName project) (mkVm z (vmRest vm)))
              vms r1 (mkDstate (d_heap s) (d_tasks s ++ ts1)) Hwf1)
    as (ts2 & r2 & Hrun2 & Hv2 & Hi2 & _ & Ht2).
  exists ts1, r1, ts2, r2.
  rewrite goClusters_goEach, goVms_goEach.
  split; [done|]. split; [done|]. split; [congruence|].
  split; [|done].
  rewrite Hi2, Hv1, Hi1. by rewrite Nat.Div0.add_mod_idemp_l.
Qed.

End ZonesMore.

Lemma zone_assignment_loops_witness :
  wfRing (newStringRing ["us-a"; "us-b"]) ∧
  ∃ ts1 r1 ts2 r2,
    goClusters projOne (newStringRing ["us-a"; "us-b"])
      [mkCluster "us-c" ""; mkCluster "" ""] (mkDstate onePool [])
    = (mkDstate onePool ([] ++ ts1), Next r1) ∧
    goVms projOne r1 [mkVm "" ""] (mkDstate onePool ([] ++ ts1))
    = (mkDstate onePool (([] ++ ts1) ++ ts2), Next r2) ∧
    values r2 = ["us-a"; "us-b"] ∧
    index r2 = (0 + countEmpty (clZone <$> [mkCluster "us-c" ""; mkCluster "" ""])
                + countEmpty (vmZone <$> [mkVm "" ""])) mod 2 ∧
    (∀ j cl, [mkCluster "us-c" ""; mkCluster "" ""] !! j = Some cl →
       ∃ z, ts1 !! j = Some (CreateCluster "proj-1" (mkCluster z (clRest cl))) ∧
            zoneGiven clZone (newStringRing ["us-a"; "us-b"])
              [mkCluster "us-c" ""; mkCluster "" ""] j cl z) ∧
    (∀ j vm, [mkVm "" ""] !! j = Some vm →
       ∃ z, ts2 !! j = Some (CreateVm "proj-1" (mkVm z (vmRest vm))) ∧
            zoneGiven vmZone r1 [mkVm "" ""] j vm z).
Proof.
  assert (Hwf : wfRing (newStringRing ["us-a"; "us-b"]))
    by (unfold wfRing; simpl; lia).
  split; [exact Hwf|].
  exact (zone_assignment_loops projOne (newStringRing ["us-a"; "us-b"])
           [mkCluster "us-c" ""; mkCluster "" ""] [mkVm "" ""]
           (mkDstate onePool []) Hwf).
Defined.

(** ** The project pool, pop after pop *)

Section PoolMore.

Lemma mapAssign_other_object (h : heap) (m m' : nat) (k : string)
    (v : list Resource) :
  m ≠ m' → mapAssign h m k v !! m' = h !! m'.
Proof. intros Hne. unfold mapAssign. by rewrite lookup_insert_ne. Qed.

(** X3. The pool of a kind is a stack: [n] pops return its projects from the
    last to the first, then nil for every pop past the end; they leave the
    projects not popped in place and in order, and touch neither the other
    kinds nor any other map. *)
Theorem popProjects_lifo (n : nat) (typesCopy : nat) (rType : string) :
  ∀ h : heap,
  ∃ h',
    popProjects n typesCopy rType h
    = ((Some <$> take n (reverse (mapIndex h typesCopy rType)))
         ++ replicate (n - length (mapIndex h typesCopy rType)) None, h') ∧
    mapIndex h' typesCopy rType
    = take (length (mapIndex h typesCopy rType) - n) (mapIndex h typesCopy rType) ∧
    (∀ k, k ≠ rType → mapIndex h' typesCopy k = mapIndex h typesCopy k) ∧
    (∀ m, m ≠ typesCopy → h' !! m = h !! m).
Proof.
  induction n as [|n IH]; intros h.
  - exists h. cbn [popProjects]. rewrite take_0, Nat.sub_0_r, firstn_all. done.
  - cbn [popProjects].
    destruct (list_empty_or_snoc (mapIndex h typesCopy rType)) as [He|(l & r & He)].
    + rewrite (popProject_empty _ _ _ He).
      destruct (IH h) as (h' & -> & Hleft & Hkinds & Hmaps). exists h'.
      rewrite He in *. cbn [length] in *.
      rewrite reverse_nil, !take_nil, !Nat.sub_0_r in *. done.
    + rewrite (popProject_last _ _ _ _ _ He).
      destruct (IH (mapAssign h typesCopy rType l))
        as (h' & -> & Hleft & Hkinds & Hmaps).
      rewrite mapIndex_mapAssign_eq in *. exists h'. rewrite He.
      rewrite reverse_snoc, length_app. cbn [length take fmap list_fmap].
      replace (n - (length l + 1) + 0) with (n - (length l + 1)) by lia.
      replace (S n - (length l + 1)) with (n - length l) by lia.
      split; [done|]. split; [|split].
      * rewrite Hleft. replace (length l + 1 - S n) with (length l - n) by lia.
        by rewrite take_app_le by lia.
      * intros k Hk. rewrite Hkinds by done. by apply mapIndex_mapAssign_ne.
      * intros m Hm. rewrite Hmaps by done. by apply mapAssign_other_object.
Qed.

End PoolMore.

(** ** The dispatch loop, whatever the client answers *)

Section DispatchMore.

Variable c : Client.
Variable typesCopy : nat.

Local Abbreviation avail := (avail typesCopy).

(** One inner loop on any ring: it only adds goroutines, one per spec in
    order until it stops; each has the zone of its spec or, the spec having
    none, a zone of the ring; it stops early only by the panic of [next]. *)
Lemma goEach_any {A} (zoneOf : A → string) (mk : string → A → task)
    (xs : list A) : ∀ (r : stringRing) (s : dstate),
  ∃ ts,
    (goEach zoneOf mk r xs s).1 = mkDstate (d_heap s) (d_tasks s ++ ts) ∧
    Forall2 (λ f x, ∃ z, f = mk z x ∧
                         if decide (zoneOf x = "") then z ∈ values r
                         else z = zoneOf x)
            ts (take (length ts) xs) ∧
    match (goEach zoneOf mk r xs s).2 with
    | Next r' => length ts = length xs ∧ values r' = values r
    | Return _ => False
    | Panic => True
    end.
Proof.
  induction xs as [|x rest IH]; intros r s.
  - exists []. cbn. rewrite app_nil_r. destruct s. repeat split. constructor.
  - cbn [goEach]. unfold bind, callAssignZone, assignZone.
    destruct (decide (zoneOf x = "")) as [He|Hne].
    + destruct (next r) as [[v r1]|] eqn:Hn.
      * apply next_Some in Hn as (Hv & _ & Hvals & _).
        cbn [ret go d_heap d_tasks].
        destruct (IH r1 (mkDstate (d_heap s) (d_tasks s ++ [mk v x])))
          as (ts & Hst & Hall & Hflow).
        exists (mk v x :: ts). cbn [d_heap d_tasks] in Hst.
        rewrite Hst, <- app_assoc. split; [done|]. split.
        -- cbn [length take]. constructor.
           ++ exists v. split; [done|]. rewrite decide_True by done.
              by eapply list_elem_of_lookup_2.
           ++ eapply Forall2_impl; [exact Hall|].
              intros f y (z & -> & Hz). exists z. split; [done|].
              destruct (decide (zoneOf y = "")); [by rewrite <- Hvals|done].
        -- destruct (goEach zoneOf mk r1 rest _).2 as [r'| |]; [|done|done].
           destruct Hflow as [Hlen Hv']. cbn [length]. split; [lia|congruence].
      * exists []. cbn. rewrite app_nil_r. destruct s. repeat split. constructor.
    + cbn [ret go d_heap d_tasks].
      destruct (IH r (mkDstate (d_heap s) (d_tasks s ++ [mk (zoneOf x) x])))
        as (ts & Hst & Hall & Hflow).
      exists (mk (zoneOf x) x :: ts). cbn [d_heap d_tasks] in Hst.
      rewrite Hst, <- app_assoc. split; [done|]. split.
      * cbn [length take]. constructor; [|done].
        exists (zoneOf x). split; [done|]. by rewrite decide_False.
      * destruct (goEach zoneOf mk r rest _).2 as [r'| |]; [|done|done].
        destruct Hflow as [Hlen Hv']. cbn [length]. split; [lia|done].
Qed.

Lemma grows_refl (s : dstate) : grows c typesCopy s s.
Proof.
  split; [done|]. split; [done|]. exists []. by rewrite app_nil_r.
Qed.

Lemma taskFromPool_prefix (h h' : heap) (f : task) :
  (∀ k, mapIndex h' typesCopy k `prefix_of` mapIndex h typesCopy k) →
  taskFromPool c typesCopy h' f → taskFromPool c typesCopy h f.
Proof.
  intros Hpre (k & r & zones & Hr & Hrest). exists k, r, zones.
  split; [|done]. destruct (Hpre k) as [l ->]. apply elem_of_app. by left.
Qed.

Lemma grows_trans (s0 s1 s2 : dstate) :
  grows c typesCopy s0 s1 → grows c typesCopy s1 s2 → grows c typesCopy s0 s2.
Proof.
  intros (Hp1 & Hm1 & ts1 & Ht1 & Hf1) (Hp2 & Hm2 & ts2 & Ht2 & Hf2).
  split; [|split].
  - intros k. transitivity (mapIndex (d_heap s1) typesCopy k); [apply Hp2|apply Hp1].
  - intros m Hm. by rewrite Hm2, Hm1.
  - exists (ts1 ++ ts2). rewrite Ht2, Ht1, app_assoc. split; [done|].
    apply Forall_app. split; [done|].
    eapply Forall_impl; [exact Hf2|]. intros f. by apply taskFromPool_prefix.
Qed.

Lemma Forall2_shapes {A} (mk : string → A → task) (g : A → shape)
    (P : A → string → Prop) (ts : list task) (xs : list A) :
  (∀ z x, taskShape (mk z x) = g x) →
  Forall2 (λ f x, ∃ z, f = mk z x ∧ P x z) ts xs →
  taskShape <$> ts = g <$> xs.
Proof.
  intros Hg Hall. induction Hall as [|f x ts xs (z & -> & _) _ IH]; [done|].
  by rewrite !fmap_cons, Hg, IH.
Qed.

Lemma goProject_popped (rType : string) (pc : projectConfig) (s : dstate)
    (l : list Resource) (r : Resource) :
  avail s rType = l ++ [r] →
  goProject c typesCopy rType pc s
  = match gce_listZones c (ResName r) with
    | inl zones =>
        bind (goClusters r (newStringRing zones) (pcClusters pc))
             (λ zoneRing, bind (goVms r zoneRing (pcVms pc)) (λ _, ret tt))
             (mkDstate (mapAssign (d_heap s) typesCopy rType l) (d_tasks s))
    | inr err =>
        (mkDstate (mapAssign (d_heap s) typesCopy rType l) (d_tasks s),
         Return err)
    end.
Proof.
  intros He. unfold goProject, bind at 1, callPopProject.
  rewrite (popProject_last _ _ _ _ _ He).
  by destruct (gce_listZones c (ResName r)).
Qed.

Lemma take_prefix_of {A} (n : nat) (l : list A) : take n l `prefix_of` l.
Proof. exists (drop n l). by rewrite take_drop. Qed.

(** The body of the loop over the specs, whatever the client answers. *)
Lemma goProject_any (rType : string) (pc : projectConfig) (s : dstate) :
  grows c typesCopy s (goProject c typesCopy rType pc s).1 ∧
  ∃ sh,
    taskShape <$> d_tasks (goProject c typesCopy rType pc s).1
    = (taskShape <$> d_tasks s) ++ sh ∧
    sh `prefix_of` specShapes pc ∧
    ((goProject c typesCopy rType pc s).2 = Next tt → sh = specShapes pc).
Proof.
  assert (Hnil : ∀ l : list task, (taskShape <$> l) = (taskShape <$> l) ++ []
                 ∧ [] `prefix_of` specShapes pc).
  { intros l'. rewrite app_nil_r. split; [done|]. apply prefix_nil. }
  destruct (list_empty_or_snoc (avail s rType)) as [He|(l & r & He)].
  { rewrite (goProject_exhausted c typesCopy _ _ _ He). cbn [fst snd].
    split; [apply grows_refl|]. exists []. destruct (Hnil (d_tasks s)). done. }
  rewrite (goProject_popped _ _ _ _ _ He).
  set (s1 := mkDstate (mapAssign (d_heap s) typesCopy rType l) (d_tasks s)).
  assert (Hpre : ∀ k, mapIndex (d_heap s1) typesCopy k
                      `prefix_of` mapIndex (d_heap s) typesCopy k).
  { intros k. unfold s1. cbn [d_heap]. destruct (decide (rType = k)) as [<-|Hne].
    - rewrite mapIndex_mapAssign_eq. unfold avail in He. rewrite He.
      by apply prefix_app_r.
    - by rewrite mapIndex_mapAssign_ne. }
  assert (Hmaps : ∀ m, m ≠ typesCopy → d_heap s1 !! m = d_heap s !! m).
  { intros m Hm. unfold s1. cbn [d_heap]. by apply mapAssign_other_object. }
  assert (Hr : r ∈ mapIndex (d_heap s) typesCopy rType).
  { unfold avail in He. rewrite He. apply elem_of_app. right. by left. }
  destruct (gce_listZones c (ResName r)) as [zones|e] eqn:Hz.
  2:{ cbn [fst snd]. split.
      - split; [done|]. split; [done|]. exists []. by rewrite app_nil_r.
      - exists []. destruct (Hnil (d_tasks s)). done. }
  set (mkc := λ z cl, CreateCluster (ResName r) (mkCluster z (clRest cl))).
  set (mkv := λ z vm, CreateVm (ResName r) (mkVm z (vmRest vm))).
  assert (Hgood : ∀ {A} (zoneOf : A → string) (mk : string → A → task)
                    (ring : stringRing) (ts : list task) (xs : list A),
            values ring = zones →
            (∀ z x, taskProject (mk z x) = ResName r ∧ taskZone (mk z x) = z) →
            Forall2 (λ f x, ∃ z, f = mk z x ∧
                                 if decide (zoneOf x = "") then z ∈ values ring
                                 else z = zoneOf x) ts xs →
            Forall (taskFromPool c typesCopy (d_heap s)) ts).
  { intros A zoneOf mk ring ts xs Hring Hmk Hall.
    induction Hall as [|f x ts xs (z & -> & Hzone) _ IH]; constructor; [|done].
    destruct (Hmk z x) as [Hp Hzn]. exists rType, r, zones.
    split; [done|]. split; [done|]. split; [done|]. rewrite Hzn.
    destruct (decide (zoneOf x = "")); [right; by rewrite <- Hring|left; congruence]. }
  unfold bind. rewrite goClusters_goEach. fold mkc.
  destruct (goEach_any clZone mkc (pcClusters pc) (newStringRing zones) s1)
    as (ts1 & Hst1 & Hall1 & Hflow1).
  destruct (goEach clZone mkc (newStringRing zones) (pcClusters pc) s1)
    as [s2 fl1]. cbn [fst snd] in Hst1, Hflow1. subst s2. cbn [d_heap d_tasks].
  assert (Hts1 : Forall (taskFromPool c typesCopy (d_heap s)) ts1).
  { apply (Hgood _ clZone mkc (newStringRing zones) ts1
             (take (length ts1) (pcClusters pc)) eq_refl); [done|exact Hall1]. }
  assert (Hsh1 : taskShape <$> ts1
                 = take (length ts1) ((λ cl, ClusterOf (clRest cl)) <$> pcClusters pc)).
  { rewrite <- fmap_take. eapply (Forall2_shapes mkc); [|exact Hall1]. done. }
  destruct fl1 as [r1|e|]; [|done|].
  2:{ cbn [fst snd]. split.
      - split; [done|]. split; [done|]. by exists ts1.
      - exists (taskShape <$> ts1). cbn [d_tasks]. rewrite fmap_app.
        split; [done|]. split; [|done]. rewrite Hsh1. unfold specShapes.
        apply prefix_app_r, take_prefix_of. }
  destruct Hflow1 as [Hlen1 Hvals1]. rewrite goVms_goEach. fold mkv.
  destruct (goEach_any vmZone mkv (pcVms pc) r1
              (mkDstate (d_heap s1) (d_tasks s ++ ts1)))
    as (ts2 & Hst2 & Hall2 & Hflow2).
  destruct (goEach vmZone mkv r1 (pcVms pc) _) as [s3 fl2].
  cbn [fst snd d_heap d_tasks] in Hst2, Hflow2. subst s3.
  assert (Hts2 : Forall (taskFromPool c typesCopy (d_heap s)) ts2).
  { apply (Hgood _ vmZone mkv r1 ts2
             (take (length ts2) (pcVms pc)) Hvals1); [done|exact Hall2]. }
  assert (Hsh2 : taskShape <$> ts2
                 = take (length ts2) ((λ vm, VmOf (vmRest vm)) <$> pcVms pc)).
  { rewrite <- fmap_take. eapply (Forall2_shapes mkv); [|exact Hall2]. done. }
  rewrite Hlen1, <- (length_fmap (λ cl, ClusterOf (clRest cl))), firstn_all in Hsh1.
  assert (Hgrow : grows c typesCopy s
            (mkDstate (d_heap s1) ((d_tasks s ++ ts1) ++ ts2))).
  { split; [done|]. split; [done|]. exists (ts1 ++ ts2).
    cbn [d_tasks]. rewrite app_assoc. split; [done|]. by apply Forall_app. }
  assert (Hshapes :
    taskShape <$> (d_tasks s ++ ts1) ++ ts2
    = (taskShape <$> d_tasks s) ++ (taskShape <$> ts1) ++ (taskShape <$> ts2)).
  { by rewrite !fmap_app, <- app_assoc. }
  assert (Hprefix : (taskShape <$> ts1) ++ (taskShape <$> ts2)
                    `prefix_of` specShapes pc).
  { unfold specShapes. rewrite Hsh1, Hsh2. apply prefix_app, take_prefix_of. }
  destruct fl2 as [r2|e|]; [|done|]; cbn [fst snd ret d_tasks]; (split; [done|]);
    exists ((taskShape <$> ts1) ++ (taskShape <$> ts2));
    (split; [done|]); (split; [done|]); [|done].
  intros _. destruct Hflow2 as [Hlen2 _]. unfold specShapes.
  rewrite Hsh1, Hsh2, Hlen2, <- (length_fmap (λ vm, VmOf (vmRest vm))), firstn_all.
  done.
Qed.

Lemma goProjects_any (rType : string) (pcs : list projectConfig) : ∀ s,
  grows c typesCopy s (goProjects c typesCopy rType pcs s).1 ∧
  ∃ sh,
    taskShape <$> d_tasks (goProjects c typesCopy rType pcs s).1
    = (taskShape <$> d_tasks s) ++ sh ∧
    sh `prefix_of` mjoin (specShapes <$> pcs) ∧
    ((goProjects c typesCopy rType pcs s).2 = Next tt →
     sh = mjoin (specShapes <$> pcs)).
Proof.
  induction pcs as [|pc rest IH]; intros s.
  - cbn. split; [apply grows_refl|]. exists []. by rewrite app_nil_r.
  - cbn [goProjects]. unfold bind.
    destruct (goProject_any rType pc s) as (Hg1 & sh1 & Hs1 & Hp1 & Hn1).
    rewrite fmap_cons. cbn [mjoin list_join].
    destruct (goProject c typesCopy rType pc s) as [s1 [[]|e|]];
      cbn [fst snd] in *.
    + destruct (IH s1) as (Hg2 & sh2 & Hs2 & Hp2 & Hn2).
      split; [by eapply grows_trans|]. exists (sh1 ++ sh2).
      rewrite Hs2, Hs1, <- app_assoc. split; [done|].
      rewrite (Hn1 eq_refl). split; [by apply prefix_app|].
      intros Hnext. by rewrite (Hn2 Hnext).
    + split; [done|]. exists sh1. split; [done|]. split; [|done].
      by apply prefix_app_r.
    + split; [done|]. exists sh1. split; [done|]. split; [|done].
      by apply prefix_app_r.
Qed.

Lemma goGroups_any (rc : resourceConfigs) : ∀ s,
  grows c typesCopy s (goGroups c typesCopy rc s).1 ∧
  ∃ sh,
    taskShape <$> d_tasks (goGroups c typesCopy rc s).1
    = (taskShape <$> d_tasks s) ++ sh ∧
    sh `prefix_of` requestShapes rc ∧
    ((goGroups c typesCopy rc s).2 = Next tt → sh = requestShapes rc).
Proof.
  induction rc as [|[k pcs] rest IH]; intros s.
  - cbn. split; [apply grows_refl|]. exists []. by rewrite app_nil_r.
  - cbn [goGroups]. unfold bind.
    destruct (goProjects_any k pcs s) as (Hg1 & sh1 & Hs1 & Hp1 & Hn1).
    unfold requestShapes. rewrite fmap_cons. cbn [mjoin list_join fst snd].
    fold (requestShapes rest).
    destruct (goProjects c typesCopy k pcs s) as [s1 [[]|e|]];
      cbn [fst snd] in *.
    + destruct (IH s1) as (Hg2 & sh2 & Hs2 & Hp2 & Hn2).
      split; [by eapply grows_trans|]. exists (sh1 ++ sh2).
      rewrite Hs2, Hs1, <- app_assoc. split; [done|].
      rewrite (Hn1 eq_refl). split; [by apply prefix_app|].
      intros Hnext. by rewrite (Hn2 Hnext).
    + split; [done|]. exists sh1. split; [done|]. split; [|done].
      by apply prefix_app_r.
    + split; [done|]. exists sh1. split; [done|]. split; [|done].
      by apply prefix_app_r.
Qed.

(** *** The zone of every goroutine started *)

Lemma countEmpty_app (zs1 zs2 : list string) :
  countEmpty (zs1 ++ zs2) = countEmpty zs1 + countEmpty zs2.
Proof. unfold countEmpty. by rewrite filter_app, length_app. Qed.

(** One inner loop on a ring as [construct] keeps it, its list empty or
    not: every goroutine it starts, up to the one where [next] panics if
    any, has the zone of its spec or the value the cursor has reached. *)
Lemma goEach_zoned {A} (zoneOf : A → string) (mk : string → A → task)
    (xs : list A) : ∀ (r : stringRing) (s : dstate),
  index r mod length (values r) = index r →
  ∃ ts,
    (goEach zoneOf mk r xs s).1 = mkDstate (d_heap s) (d_tasks s ++ ts) ∧
    (∀ j f, ts !! j = Some f →
       ∃ x z, xs !! j = Some x ∧ f = mk z x ∧ zoneGiven zoneOf r xs j x z) ∧
    match (goEach zoneOf mk r xs s).2 with
    | Next r' =>
        values r' = values r ∧
        index r' = (index r + countEmpty (zoneOf <$> xs)) mod length (values r)
    | Return _ => False
    | Panic => True
    end.
Proof.
  induction xs as [|x rest IH]; intros r s Hidx.
  - exists []. cbn. rewrite app_nil_r. destruct s.
    split; [done|]. split; [by intros j f|]. split; [done|].
    unfold countEmpty. cbn. by rewrite Nat.add_0_r.
  - cbn [goEach]. unfold bind, callAssignZone, assignZone.
    destruct (decide (zoneOf x = "")) as [He|Hne].
    + destruct (next r) as [[v r1]|] eqn:Hn.
      * apply next_Some in Hn as (Hv & _ & Hvals & Hi1).
        cbn [ret go d_heap d_tasks].
        destruct (IH r1 (mkDstate (d_heap s) (d_tasks s ++ [mk v x])))
          as (ts & Hst & Hall & Hflow).
        { rewrite Hvals, Hi1. apply Nat.Div0.mod_mod. }
        exists (mk v x :: ts). cbn [d_heap d_tasks] in Hst.
        rewrite Hst, <- app_assoc. split; [done|]. split.
        -- intros [|j] f Hf; cbn in Hf.
           ++ injection Hf as <-. exists x, v. split; [done|]. split; [done|].
              unfold zoneGiven. rewrite decide_True by done.
              unfold countEmpty. cbn. by rewrite Nat.add_0_r, Hidx.
           ++ destruct (Hall j f Hf) as (y & z & Hy & -> & Hz).
              exists y, z. split; [done|]. split; [done|].
              unfold zoneGiven in *. destruct (decide (zoneOf y = "")); [|done].
              rewrite <- Hz, Hvals, Hi1. cbn [take].
              rewrite fmap_cons, countEmpty_cons, decide_True by done.
              rewrite Nat.Div0.add_mod_idemp_l. do 2 f_equal. lia.
        -- destruct (goEach zoneOf mk r1 rest _).2 as [r'| |]; [|done|done].
           destruct Hflow as [Hv' Hi']. split; [congruence|].
           rewrite Hi', Hvals, Hi1, fmap_cons, countEmpty_cons, decide_True by done.
           rewrite Nat.Div0.add_mod_idemp_l. f_equal. lia.
      * exists []. cbn. rewrite app_nil_r. destruct s.
        split; [done|]. split; [by intros j f|done].
    + cbn [ret go d_heap d_tasks].
      destruct (IH r (mkDstate (d_heap s) (d_tasks s ++ [mk (zoneOf x) x])) Hidx)
        as (ts & Hst & Hall & Hflow).
      exists (mk (zoneOf x) x :: ts). cbn [d_heap d_tasks] in Hst.
      rewrite Hst, <- app_assoc. split; [done|]. split.
      * intros [|j] f Hf; cbn in Hf.
        -- injection Hf as <-. exists x, (zoneOf x). split; [done|]. split; [done|].
           unfold zoneGiven. by rewrite decide_False.
        -- destruct (Hall j f Hf) as (y & z & Hy & -> & Hz).
           exists y, z. split; [done|]. split; [done|].
           unfold zoneGiven in *. destruct (decide (zoneOf y = "")); [|done].
           rewrite <- Hz. cbn [take].
           by rewrite fmap_cons, countEmpty_cons, decide_False.
      * destruct (goEach zoneOf mk r rest _).2 as [r'| |]; [|done|done].
        destruct Hflow as [Hv' Hi']. split; [done|].
        by rewrite Hi', fmap_cons, countEmpty_cons, decide_False.
Qed.

(** From the cursor of the ring to the position in the spec: [pre] are the
    zones of the clusters and VMs of the spec handled before the loop. *)
Lemma zoneGiven_zoneFor {A} (zoneOf : A → string) (zones pre post : list string)
    (xs : list A) (r : stringRing) (j : nat) (x : A) (z : string) :
  values r = zones →
  index r = countEmpty pre mod length zones →
  xs !! j = Some x →
  zoneGiven zoneOf r xs j x z →
  zoneFor zones (pre ++ (zoneOf <$> xs) ++ post) (length pre + j) = Some z.
Proof.
  intros Hvals Hidx Hx Hz. unfold zoneFor.
  assert (Hj : j < length xs) by (by apply lookup_lt_Some in Hx).
  rewrite lookup_app_r by lia.
  replace (length pre + j - length pre) with j by lia.
  rewrite (lookup_app_l_Some _ _ _ (zoneOf x))
    by (by rewrite list_lookup_fmap, Hx).
  unfold zoneGiven in Hz. destruct (decide (zoneOf x = "")); [|by subst z].
  rewrite take_app_add, countEmpty_app.
  rewrite take_app_le by (rewrite length_fmap; lia).
  rewrite <- fmap_take, <- Hz, Hvals, Hidx.
  by rewrite Nat.Div0.add_mod_idemp_l.
Qed.

Lemma taskOf_prefix (h h' : heap) (k : string) (pc : projectConfig) (f : task) :
  (∀ k, mapIndex h' typesCopy k `prefix_of` mapIndex h typesCopy k) →
  taskOf c typesCopy h' k pc f → taskOf c typesCopy h k pc f.
Proof.
  intros Hpre (r & zones & j & zone & Hr & Hrest). exists r, zones, j, zone.
  split; [|done]. destruct (Hpre k) as [l ->]. apply elem_of_app. by left.
Qed.

(** The body of the loop over the specs: what it starts is started for its
    spec. *)
Lemma goProject_planned (rType : string) (pc : projectConfig) (s : dstate) :
  ∃ ts,
    d_tasks (goProject c typesCopy rType pc s).1 = d_tasks s ++ ts ∧
    Forall (taskOf c typesCopy (d_heap s) rType pc) ts.
Proof.
  destruct (list_empty_or_snoc (avail s rType)) as [He|(l & r & He)].
  { rewrite (goProject_exhausted c typesCopy _ _ _ He). exists [].
    cbn [fst]. by rewrite app_nil_r. }
  rewrite (goProject_popped _ _ _ _ _ He).
  assert (Hr : r ∈ mapIndex (d_heap s) typesCopy rType).
  { unfold avail in He. rewrite He. apply elem_of_app. right. by left. }
  destruct (gce_listZones c (ResName r)) as [zones|e] eqn:Hz.
  2:{ exists []. cbn [fst d_tasks]. by rewrite app_nil_r. }
  set (s1 := mkDstate (mapAssign (d_heap s) typesCopy rType l) (d_tasks s)).
  set (mkc := λ z cl, CreateCluster (ResName r) (mkCluster z (clRest cl))).
  set (mkv := λ z vm, CreateVm (ResName r) (mkVm z (vmRest vm))).
  unfold bind. rewrite goClusters_goEach. fold mkc.
  destruct (goEach_zoned clZone mkc (pcClusters pc) (newStringRing zones) s1)
    as (ts1 & Hst1 & Hall1 & Hflow1).
  { cbn [index values newStringRing]. apply Nat.Div0.mod_0_l. }
  assert (Hts1 : Forall (taskOf c typesCopy (d_heap s) rType pc) ts1).
  { apply Forall_lookup. intros j f Hf.
    destruct (Hall1 j f Hf) as (cl & z & Hcl & -> & Hzone).
    exists r, zones, j, z. split; [done|]. split; [done|]. split.
    - apply (zoneGiven_zoneFor clZone zones [] (vmZone <$> pcVms pc)
               (pcClusters pc) (newStringRing zones) j cl z); try done.
      cbn [index newStringRing]. unfold countEmpty. cbn.
      by rewrite Nat.Div0.mod_0_l.
    - unfold specTask. by rewrite Hcl. }
  destruct (goEach clZone mkc (newStringRing zones) (pcClusters pc) s1)
    as [s2 fl1]. cbn [fst snd] in Hst1, Hflow1. subst s2.
  destruct fl1 as [r1|e|]; [|done|].
  2:{ exists ts1. cbn [fst d_tasks]. done. }
  destruct Hflow1 as [Hvals1 Hidx1]. cbn [index values newStringRing] in Hvals1, Hidx1.
  rewrite goVms_goEach. fold mkv.
  destruct (goEach_zoned vmZone mkv (pcVms pc) r1
              (mkDstate (d_heap s1) (d_tasks s1 ++ ts1)))
    as (ts2 & Hst2 & Hall2 & Hflow2).
  { rewrite Hvals1, Hidx1. apply Nat.Div0.mod_mod. }
  assert (Hts2 : Forall (taskOf c typesCopy (d_heap s) rType pc) ts2).
  { apply Forall_lookup. intros j f Hf.
    destruct (Hall2 j f Hf) as (vm & z & Hvm & -> & Hzone).
    exists r, zones, (length (pcClusters pc) + j), z.
    split; [done|]. split; [done|]. split.
    - pose proof (zoneGiven_zoneFor vmZone zones (clZone <$> pcClusters pc) []
                    (pcVms pc) r1 j vm z Hvals1 Hidx1 Hvm Hzone) as Hfor.
      rewrite app_nil_r, length_fmap in Hfor. exact Hfor.
    - unfold specTask. rewrite lookup_ge_None_2 by lia.
      replace (length (pcClusters pc) + j - length (pcClusters pc)) with j by lia.
      by rewrite Hvm. }
  destruct (goEach vmZone mkv r1 (pcVms pc) _) as [s3 fl2].
  cbn [fst snd d_heap d_tasks] in Hst2, Hflow2. subst s3.
  exists (ts1 ++ ts2). split; [|by apply Forall_app].
  destruct fl2 as [r2|e|]; [|done|]; cbn [fst ret d_tasks]; by rewrite app_assoc.
Qed.

Lemma goProjects_planned (rType : string) (pcs : list projectConfig) : ∀ s,
  ∃ ts,
    d_tasks (goProjects c typesCopy rType pcs s).1 = d_tasks s ++ ts ∧
    Forall (λ f, ∃ pc, pc ∈ pcs ∧ taskOf c typesCopy (d_heap s) rType pc f) ts.
Proof.
  induction pcs as [|pc rest IH]; intros s.
  - exists []. cbn. by rewrite app_nil_r.
  - cbn [goProjects]. unfold bind.
    destruct (goProject_planned rType pc s) as (ts1 & Ht1 & Hf1).
    destruct (goProject_any rType pc s) as [(Hpre & _ & _) _].
    assert (Hfirst : Forall (λ f, ∃ pc', pc' ∈ pc :: rest
                                  ∧ taskOf c typesCopy (d_heap s) rType pc' f) ts1).
    { eapply Forall_impl; [exact Hf1|]. intros f Hf. exists pc. split; [left|done]. }
    destruct (goProject c typesCopy rType pc s) as [s1 [[]|e|]];
      cbn [fst snd] in *; [|by exists ts1|by exists ts1].
    destruct (IH s1) as (ts2 & Ht2 & Hf2).
    exists (ts1 ++ ts2). rewrite Ht2, Ht1, app_assoc. split; [done|].
    apply Forall_app. split; [done|].
    eapply Forall_impl; [exact Hf2|]. intros f (pc' & Hin & Hof).
    exists pc'. split; [by right|]. by eapply taskOf_prefix.
Qed.

(** The whole dispatch loop: what it starts is started for a spec of the
    request. *)
Lemma goGroups_planned (rc : resourceConfigs) : ∀ s,
  ∃ ts,
    d_tasks (goGroups c typesCopy rc s).1 = d_tasks s ++ ts ∧
    Forall (taskFromSpec c typesCopy (d_heap s) rc) ts.
Proof.
  induction rc as [|[k pcs] rest IH]; intros s.
  - exists []. cbn. by rewrite app_nil_r.
  - cbn [goGroups]. unfold bind.
    destruct (goProjects_planned k pcs s) as (ts1 & Ht1 & Hf1).
    destruct (goProjects_any k pcs s) as [(Hpre & _ & _) _].
    assert (Hfirst : Forall (taskFromSpec c typesCopy (d_heap s) ((k, pcs) :: rest))
                            ts1).
    { eapply Forall_impl; [exact Hf1|]. intros f (pc & Hin & Hof).
      exists k, pcs, pc. split; [left|done]. }
    destruct (goProjects c typesCopy k pcs s) as [s1 [[]|e|]];
      cbn [fst snd] in *; [|by exists ts1|by exists ts1].
    destruct (IH s1) as (ts2 & Ht2 & Hf2).
    exists (ts1 ++ ts2). rewrite Ht2, Ht1, app_assoc. split; [done|].
    apply Forall_app. split; [done|].
    eapply Forall_impl; [exact Hf2|]. intros f (k' & pcs' & pc & Hin & Hpc & Hof).
    exists k', pcs', pc. split; [by right|]. split; [done|].
    by eapply taskOf_prefix.
Qed.

End DispatchMore.

(** ** Runs of construct, whatever the client answers *)

Section RunsMore.

Lemma construct_heap (w : World) (c : Client) (rc : resourceConfigs)
    (res : Resource) (types : nat) (h : heap) :
  gcpClient w = Some c →
  r_heap (construct w rc res types h)
  = d_heap (goGroups c types rc (mkDstate h [])).1.
Proof.
  intros Hc. unfold construct. rewrite Hc.
  destruct (goGroups c types rc (mkDstate h [])) as [s [[]|e|]]; simpl; try done.
  destruct (wait _ _ _ _ _) as [ch [e|]|ch]; simpl; try done.
  destruct (aggregate _ _) as [info|]; simpl; try done.
  by destruct (marshal w info).
Qed.

(** X4. Whatever happens in a run, the pool it is given only loses projects,
    from the end of the list of their kind: what is left of a kind is a
    prefix of what was there, in the same order. No other map of the heap
    is written. *)
Theorem construct_pool_only_shrinks (w : World) (rc : resourceConfigs)
    (res : Resource) (types : nat) (h : heap) :
  (∀ k, mapIndex (r_heap (construct w rc res types h)) types k
        `prefix_of` mapIndex h types k) ∧
  (∀ m, m ≠ types → r_heap (construct w rc res types h) !! m = h !! m).
Proof.
  destruct (gcpClient w) as [c|] eqn:Hc.
  - rewrite (construct_heap w c) by done.
    destruct (goGroups_any c types rc (mkDstate h [])) as [(Hpre & Hmaps & _) _].
    done.
  - by rewrite construct_no_client.
Qed.

(** X5. Every goroutine a run starts was started for a spec of the request:
    it is the goroutine of one of the clusters or VMs of that spec, on a
    project of the kind of the spec that was in the pool given, after the
    zones of that project were listed without error; and it hands its
    creator the zone its cluster or VM is written with or, there being none,
    the zone listed at the position given by the number of clusters and VMs
    without a zone before it in the spec, modulo the number of zones. *)
Theorem construct_tasks_from_pool (w : World) (c : Client)
    (rc : resourceConfigs) (res : Resource) (types : nat) (h : heap) :
  gcpClient w = Some c →
  Forall (taskFromSpec c types h rc) (r_tasks (construct w rc res types h)).
Proof.
  intros Hc. rewrite (construct_tasks w c) by done.
  destruct (goGroups_planned c types rc (mkDstate h [])) as (ts & -> & Hts).
  done.
Qed.

Lemma construct_tasks_from_pool_witness :
  gcpClient (worldOf echoClient) = Some echoClient ∧
  r_tasks (construct (worldOf echoClient) pinnedThenNot projOne 0 onePool)
  = [CreateCluster "proj-1" (mkCluster "us-c" "");
     CreateCluster "proj-1" (mkCluster "us-a" "");
     CreateVm "proj-1" (mkVm "us-b" "")] ∧
  Forall (taskFromSpec echoClient 0 onePool pinnedThenNot)
    (r_tasks (construct (worldOf echoClient) pinnedThenNot projOne 0 onePool)).
Proof.
  split; [reflexivity|]. split; [vm_compute; reflexivity|].
  exact (construct_tasks_from_pool (worldOf echoClient) echoClient pinnedThenNot
           projOne 0 onePool eq_refl).
Defined.

(** X6. When no zone list has an empty zone name in it, no creator is ever
    called with an empty zone. *)
Theorem construct_no_empty_zone (w : World) (c : Client)
    (rc : resourceConfigs) (res : Resource) (types : nat) (h : heap) :
  gcpClient w = Some c →
  (∀ project zones, gce_listZones c project = inl zones → "" ∉ zones) →
  Forall (λ f, taskZone f ≠ "") (r_tasks (construct w rc res types h)).
Proof.
  intros Hc Hzones. rewrite (construct_tasks w c) by done.
  destruct (goGroups_any c types rc (mkDstate h []))
    as [(_ & _ & ts & -> & Hts) _]. cbn [d_tasks app].
  eapply Forall_impl; [exact Hts|].
  intros f (k & r & zones & _ & _ & Hz & [Hne|Hin]); [done|].
  intros He. rewrite He in Hin. by apply (Hzones _ _ Hz).
Qed.

Lemma echoClient_zones_named (project : string) (zones : list string) :
  gce_listZones echoClient project = inl zones → "" ∉ zones.
Proof.
  intros [= <-] Hin. apply elem_of_cons in Hin as [Hin|Hin]; [done|].
  apply elem_of_cons in Hin as [Hin|Hin]; [done|].
  by apply not_elem_of_nil in Hin.
Defined.

Lemma construct_no_empty_zone_witness :
  gcpClient (worldOf echoClient) = Some echoClient ∧
  Forall (λ f, taskZone f ≠ "")
    (r_tasks (construct (worldOf echoClient) oneOfEach projOne 0 onePool)).
Proof.
  split; [reflexivity|].
  exact (construct_no_empty_zone (worldOf echoClient) echoClient oneOfEach
           projOne 0 onePool eq_refl echoClient_zones_named).
Defined.

(** X7. A run starts its goroutines in the order of the request: group after
    group, spec after spec, the clusters of a spec before its VMs. Whatever
    stops it, what it has started is a beginning of what the request asks
    for: nothing else, nothing twice, nothing out of order. *)
Theorem construct_starts_in_request_order (w : World) (rc : resourceConfigs)
    (res : Resource) (types : nat) (h : heap) :
  taskShape <$> r_tasks (construct w rc res types h)
  `prefix_of` requestShapes rc.
Proof.
  destruct (gcpClient w) as [c|] eqn:Hc.
  - rewrite (construct_tasks w c) by done.
    destruct (goGroups_any c types rc (mkDstate h []))
      as [_ (sh & -> & Hpre & _)]. done.
  - rewrite construct_no_client by done. apply prefix_nil.
Qed.

(** X8. When the dispatch loop goes through, the run has started exactly one
    goroutine per cluster spec and per VM spec of the request. *)
Theorem construct_starts_whole_request (w : World) (c : Client)
    (rc : resourceConfigs) (res : Resource) (types : nat) (h : heap)
    (s : dstate) :
  gcpClient w = Some c →
  goGroups c types rc (mkDstate h []) = (s, Next tt) →
  taskShape <$> r_tasks (construct w rc res types h) = requestShapes rc ∧
  length (r_tasks (construct w rc res types h)) = length (requestShapes rc).
Proof.
  intros Hc Hgo. rewrite (construct_tasks w c) by done.
  destruct (goGroups_any c types rc (mkDstate h []))
    as [_ (sh & Hsh & _ & Hnext)].
  rewrite Hgo in *. cbn [fst snd d_tasks fmap list_fmap app] in *.
  assert (Heq : taskShape <$> d_tasks s = requestShapes rc).
  { rewrite Hsh. by apply Hnext. }
  split; [done|]. by rewrite <- Heq, length_fmap.
Qed.

Lemma construct_starts_whole_request_witness :
  goGroups echoClient 0 oneOfEach (mkDstate onePool [])
  = (mkDstate {[ 0 := {[ "pool-X" := [] ]} ]}
       [CreateCluster "proj-1" (mkCluster "us-a" "");
        CreateVm "proj-1" (mkVm "us-b" "")], Next tt) ∧
  taskShape <$> r_tasks (construct (worldOf echoClient) oneOfEach projOne 0 onePool)
  = requestShapes oneOfEach.
Proof.
  assert (Hgo : goGroups echoClient 0 oneOfEach (mkDstate onePool [])
    = (mkDstate {[ 0 := {[ "pool-X" := [] ]} ]}
         [CreateCluster "proj-1" (mkCluster "us-a" "");
          CreateVm "proj-1" (mkVm "us-b" "")], Next tt))
    by (vm_compute; reflexivity).
  split; [exact Hgo|].
  exact (proj1 (construct_starts_whole_request (worldOf echoClient) echoClient
                  oneOfEach projOne 0 onePool _ eq_refl Hgo)).
Defined.

(** X9. A zone listing that fails for the project of the first spec ends
    the run with that error before any goroutine is started; the project
    has been taken off the pool all the same. *)
Theorem construct_zone_listing_fails (w : World) (c : Client) (k : string)
    (pc : projectConfig) (pcs : list projectConfig) (rest : resourceConfigs)
    (res : Resource) (types : nat) (h : heap) (l : list Resource)
    (r : Resource) (e : error) :
  gcpClient w = Some c →
  mapIndex h types k = l ++ [r] →
  gce_listZones c (ResName r) = inr e →
  construct w ((k, pc :: pcs) :: rest) res types h
  = mkRun (Returned None None (Some e)) [] (mapAssign h types k l).
Proof.
  intros Hc Hpool Hz.
  apply (construct_returned_early w c _ res types h
           (mkDstate (mapAssign h types k l) []) e Hc).
  cbn [goGroups goProjects]. unfold bind.
  rewrite (goProject_popped c types k pc (mkDstate h []) l r Hpool), Hz. done.
Qed.

Lemma construct_zone_listing_fails_witness :
  mapIndex onePool 0 "pool-X" = [] ++ [projOne] ∧
  construct (worldOf zoneErrorClient) twoSpecs projOne 0 onePool
  = mkRun (Returned None None (Some (ErrExternal "zones unavailable"))) []
          (mapAssign onePool 0 "pool-X" []).
Proof.
  split; [reflexivity|].
  exact (construct_zone_listing_fails (worldOf zoneErrorClient) zoneErrorClient
           "pool-X" _ _ [] projOne 0 onePool [] projOne _
           eq_refl eq_refl eq_refl).
Defined.

Lemma construct_error_alone (w : World) (rc : resourceConfigs)
    (res : Resource) (types : nat) (h : heap) (ud : option UserData)
    (info : option ResourceInfo) (e : error) :
  r_outcome (construct w rc res types h) = Returned ud info (Some e) →
  ud = None ∧ info = None.
Proof.
  intros Hout. unfold construct in Hout.
  destruct (gcpClient w) as [c|]; [|by injection Hout as <- <-].
  destruct (goGroups c types rc (mkDstate h [])) as [s [[]|e'|]];
    simpl in Hout; [| by injection Hout as <- <- | done].
  destruct (wait _ _ _ _ _) as [ch [e'|]|ch]; simpl in Hout;
    [by injection Hout as <- <-| |done].
  destruct (aggregate _ _) as [i|]; simpl in Hout; [|done].
  destruct (marshal w i); simpl in Hout; [|done].
  by injection Hout as <- <-.
Qed.

Lemma construct_success_both (w : World) (rc : resourceConfigs)
    (res : Resource) (types : nat) (h : heap) (ud : option UserData)
    (info : option ResourceInfo) :
  r_outcome (construct w rc res types h) = Returned ud info None →
  ∃ i, info = Some i ∧ ud = Some {[ResourceConfigType := i]}.
Proof.
  intros Hout. destruct info as [i|].
  - apply construct_inventory_inv in Hout
      as (c & s & _ & _ & _ & _ & _ & _ & -> & _). by exists i.
  - unfold construct in Hout.
    destruct (gcpClient w) as [c|]; [|done].
    destruct (goGroups c types rc (mkDstate h [])) as [s [[]|e'|]];
      simpl in Hout; [|done|done].
    destruct (wait _ _ _ _ _) as [ch [e'|]|ch]; simpl in Hout; [done| |done].
    destruct (aggregate _ _) as [i|]; simpl in Hout; [|done].
    by destruct (marshal w i).
Qed.

(** X10. What a run returns is all or nothing: either an error with neither
    user data nor inventory, or an inventory with the user data that holds
    it under [ResourceConfigType] and no error. *)
Theorem construct_all_or_nothing (w : World) (rc : resourceConfigs)
    (res : Resource) (types : nat) (h : heap) (ud : option UserData)
    (info : option ResourceInfo) (err : option error) :
  r_outcome (construct w rc res types h) = Returned ud info err →
  (ud = None ∧ info = None ∧ is_Some err) ∨
  (∃ i, info = Some i ∧ ud = Some {[ResourceConfigType := i]} ∧ err = None).
Proof.
  intros Hout. destruct err as [e|].
  - left. apply construct_error_alone in Hout as [-> ->]. eauto.
  - right. apply construct_success_both in Hout as (i & -> & ->). by exists i.
Qed.

Lemma construct_all_or_nothing_witness :
  r_outcome (construct (worldOf quotaClient) oneOfEach projOne 0 onePool)
  = Returned None None (Some (ErrExternal "quota exceeded")) ∧
  (((None : option UserData) = None ∧ (None : option ResourceInfo) = None ∧
    is_Some (Some (ErrExternal "quota exceeded"))) ∨
   (∃ i : ResourceInfo,
      None = Some i ∧
      (None : option UserData) = Some {[ResourceConfigType := i]} ∧
      Some (ErrExternal "quota exceeded") = None)).
Proof.
  assert (Hout : r_outcome (construct (worldOf quotaClient) oneOfEach projOne 0 onePool)
                 = Returned None None (Some (ErrExternal "quota exceeded")))
    by (vm_compute; reflexivity).
  split; [exact Hout|].
  exact (construct_all_or_nothing _ _ _ _ _ _ _ _ Hout).
Defined.

(** X11. A run fails to return exactly when its dispatch loop went through
    and more creations succeeded than the result channel holds; a run that
    started at most [maxChannels] goroutines always returns or panics. *)
Theorem construct_blocked_iff (w : World) (rc : resourceConfigs)
    (res : Resource) (types : nat) (h : heap) :
  (r_outcome (construct w rc res types h) = Blocked ↔
   ∃ c s, gcpClient w = Some c ∧
          goGroups c types rc (mkDstate h []) = (s, Next tt) ∧
          maxChannels
          < length (sent (results c 0 (completionOrder (schedule w) (d_tasks s))))) ∧
  (length (r_tasks (construct w rc res types h)) ≤ maxChannels →
   r_outcome (construct w rc res types h) ≠ Blocked).
Proof.
  assert (Hiff : r_outcome (construct w rc res types h) = Blocked ↔
    ∃ c s, gcpClient w = Some c ∧
           goGroups c types rc (mkDstate h []) = (s, Next tt) ∧
           maxChannels
           < length (sent (results c 0 (completionOrder (schedule w) (d_tasks s))))).
  { split.
    - destruct (gcpClient w) as [c|] eqn:Hc; [|by rewrite construct_no_client].
      destruct (goGroups c types rc (mkDstate h [])) as [s [[]|e|]] eqn:Hgo.
      + rewrite (construct_dispatched w c rc res types h s Hc Hgo). simpl.
        unfold afterDispatch. destruct (decide _) as [Hfit|Hover].
        * destruct (firstError _); [done|].
          destruct (aggregate _ _) as [i|]; [|done]. by destruct (marshal w i).
        * intros _. exists c, s. split; [done|]. split; [done|]. lia.
      + by rewrite (construct_returned_early w c rc res types h s e Hc Hgo).
      + by rewrite (construct_panicked_early w c rc res types h s Hc Hgo).
    - intros (c & s & Hc & Hgo & Hover). by eapply construct_blocks. }
  split; [exact Hiff|].
  intros Hlen Hb. apply Hiff in Hb as (c & s & Hc & Hgo & Hover).
  rewrite (construct_dispatched w c rc res types h s Hc Hgo) in Hlen.
  simpl in Hlen.
  pose proof (sent_length_le
                (results c 0 (completionOrder (schedule w) (d_tasks s)))) as Hle.
  rewrite results_length, completionOrder_length in Hle. lia.
Qed.

End RunsMore.

(** ** The inventory, project by project *)

Section InventoryMore.

Lemma sent_counts (c : Client) (project : string) (order : list task) :
  ∀ ctx,
    firstError (results c ctx order) = None →
    length (clustersOf project (sent (results c ctx order)))
    = length (filter (λ f, isClusterOn project f) order) ∧
    length (vmsOf project (sent (results c ctx order)))
    = length (filter (λ f, isVmOn project f) order).
Proof.
  induction order as [|f rest IH]; intros ctx; cbn [results]; [done|].
  destruct (call c ctx f) as [m|e] eqn:Hcall; cbn [sent firstError]; [|done].
  intros Hfirst. destruct (IH (S ctx) Hfirst) as [IHc IHv].
  rewrite clustersOf_cons, vmsOf_cons, !length_app, IHc, IHv, !filter_cons.
  unfold clustersOf, vmsOf.
  destruct f as [pr cl|pr vm]; cbn [call] in Hcall.
  - destruct (gke_create c ctx pr cl) as [i|]; [|done]. injection Hcall as <-.
    cbn [omap list_omap p ci vmi isClusterOn isVmOn].
    destruct (decide (pr = project)) as [->|Hne].
    + rewrite bool_decide_eq_true_2 by done. done.
    + rewrite bool_decide_eq_false_2 by done. done.
  - destruct (gce_create c ctx pr vm) as [i|]; [|done]. injection Hcall as <-.
    cbn [omap list_omap p ci vmi isClusterOn isVmOn].
    destruct (decide (pr = project)) as [->|Hne].
    + rewrite bool_decide_eq_true_2 by done. done.
    + rewrite bool_decide_eq_false_2 by done. done.
Qed.

(** X12. In the inventory a run hands back, a project has as many clusters
    as the run started cluster creations on it, and as many VMs as it
    started VM creations on it, whatever the order in which they finished. *)
Theorem inventory_counts (w : World) (rc : resourceConfigs) (res : Resource)
    (types : nat) (h : heap) (ud : option UserData) (info : ResourceInfo)
    (err : option error) (project : string) :
  r_outcome (construct w rc res types h) = Returned ud (Some info) err →
  length (Clusters (default noProject (info !! project)))
  = length (filter (λ f, isClusterOn project f)
              (r_tasks (construct w rc res types h))) ∧
  length (VMs (default noProject (info !! project)))
  = length (filter (λ f, isVmOn project f)
              (r_tasks (construct w rc res types h))).
Proof.
  intros Hout.
  apply construct_inventory_inv in Hout
    as (c & s & Hc & Hgo & -> & Hfit & Hfirst & Hagg & _ & _).
  apply aggregate_spec in Hagg as (_ & _ & Hlists).
  rewrite Hlists, lookup_empty. cbn [default noProject Clusters VMs app].
  destruct (sent_counts c project _ 0 Hfirst) as [-> ->].
  by rewrite !completionOrder_perm.
Qed.

Lemma inventory_counts_witness :
  r_outcome (construct (mkWorld (Some echoClient) [1] (λ _, None))
               oneOfEach projOne 0 onePool)
  = Returned
      (Some {[ResourceConfigType :=
                {["proj-1" := mkProjectInfo [mkInstance "cluster" "us-a"]
                                            [mkInstance "vm" "us-b"]]}]})
      (Some {["proj-1" := mkProjectInfo [mkInstance "cluster" "us-a"]
                                        [mkInstance "vm" "us-b"]]})
      None ∧
  length (Clusters (default noProject
            (({["proj-1" := mkProjectInfo [mkInstance "cluster" "us-a"]
                                          [mkInstance "vm" "us-b"]]}
              : ResourceInfo) !! "proj-1")))
  = length (filter (λ f, isClusterOn "proj-1" f)
              (r_tasks (construct (mkWorld (Some echoClient) [1] (λ _, None))
                          oneOfEach projOne 0 onePool))).
Proof.
  assert (Hout :
    r_outcome (construct (mkWorld (Some echoClient) [1] (λ _, None))
                 oneOfEach projOne 0 onePool)
    = Returned
        (Some {[ResourceConfigType :=
                  {["proj-1" := mkProjectInfo [mkInstance "cluster" "us-a"]
                                              [mkInstance "vm" "us-b"]]}]})
        (Some {["proj-1" := mkProjectInfo [mkInstance "cluster" "us-a"]
                                          [mkInstance "vm" "us-b"]]})
        None) by (vm_compute; reflexivity).
  split; [exact Hout|].
  exact (proj1 (inventory_counts _ _ _ _ _ _ _ _ "proj-1" Hout)).
Defined.

(** X13. The aggregation loop panics exactly when some [com] it is given has
    neither pointer set. *)
Theorem aggregate_panics_iff (coms : list com) : ∀ info : ResourceInfo,
  aggregate coms info = None ↔ ∃ m, m ∈ coms ∧ ci m = None ∧ vmi m = None.
Proof.
  induction coms as [|m rest IH]; intros info; cbn [aggregate].
  - split; [done|]. intros (m & Hm & _). by apply not_elem_of_nil in Hm.
  - destruct (collect info m) as [info1|] eqn:Hc.
    + rewrite IH. split.
      * intros (m' & Hin & Hnone). exists m'. split; [by right|done].
      * intros (m' & Hin & Hci & Hvmi).
        apply elem_of_cons in Hin as [->|Hin]; [|by exists m'].
        unfold collect in Hc. by rewrite Hci, Hvmi in Hc.
    + split; [|done]. intros _. exists m. split; [by left|].
      unfold collect in Hc. destruct (ci m); [done|]. by destruct (vmi m).
Qed.

(** Aggregating a sequence of [com]s is aggregating its first part, then
    the rest on the inventory obtained. *)
Lemma aggregate_app (coms1 coms2 : list com) : ∀ info : ResourceInfo,
  aggregate (coms1 ++ coms2) info
  = match aggregate coms1 info with
    | Some info1 => aggregate coms2 info1
    | None => None
    end.
Proof.
  induction coms1 as [|m rest IH]; intros info; cbn [aggregate app]; [done|].
  destruct (collect info m) as [info1|]; [apply IH|done].
Qed.

(** X14. The aggregation loop only adds: every project of the inventory it
    starts from is still there afterwards, and the clusters and VMs it had
    are still the first of its lists, in the same order. *)
Theorem aggregate_keeps (coms : list com) (info info' : ResourceInfo)
    (project : string) (pi : ProjectInfo) :
  aggregate coms info = Some info' →
  info !! project = Some pi →
  ∃ pi', info' !! project = Some pi' ∧
         Clusters pi `prefix_of` Clusters pi' ∧
         VMs pi `prefix_of` VMs pi'.
Proof.
  intros Hagg Hpi. apply aggregate_spec in Hagg as (Hdom & _ & Hlists).
  assert (Hin : project ∈ dom info').
  { rewrite Hdom. apply elem_of_union. right. apply elem_of_dom. eauto. }
  apply elem_of_dom in Hin as [pi' Hpi']. exists pi'. split; [done|].
  specialize (Hlists project). rewrite Hpi, Hpi' in Hlists. simpl in Hlists.
  subst pi'. simpl. split; by apply prefix_app_r.
Qed.

Lemma aggregate_keeps_witness :
  aggregate [mkCom "proj-1" None (Some (mkInstance "vm" "us-b"))]
    {["proj-1" := mkProjectInfo [mkInstance "cluster" "us-a"] []]}
  = Some {["proj-1" := mkProjectInfo [mkInstance "cluster" "us-a"]
                                     [mkInstance "vm" "us-b"]]} ∧
  ∃ pi', ({["proj-1" := mkProjectInfo [mkInstance "cluster" "us-a"]
                                      [mkInstance "vm" "us-b"]]}
           : ResourceInfo) !! "proj-1" = Some pi' ∧
         [mkInstance "cluster" "us-a"] `prefix_of` Clusters pi' ∧
         [] `prefix_of` VMs pi'.
Proof.
  assert (Hagg :
    aggregate [mkCom "proj-1" None (Some (mkInstance "vm" "us-b"))]
      {["proj-1" := mkProjectInfo [mkInstance "cluster" "us-a"] []]}
    = Some {["proj-1" := mkProjectInfo [mkInstance "cluster" "us-a"]
                                       [mkInstance "vm" "us-b"]]})
    by (vm_compute; reflexivity).
  split; [exact Hagg|].
  exact (aggregate_keeps _ _ _ "proj-1"
           (mkProjectInfo [mkInstance "cluster" "us-a"] []) Hagg eq_refl).
Defined.

End InventoryMore.

(** ** Random names *)

Section Names.

Lemma string_length_app (s1 s2 : string) :
  String.length (s1 +:+ s2) = String.length s1 + String.length s2.
Proof.
  induction s1 as [|a s1 IH]; [done|].
  change (String a s1 +:+ s2) with (String a (s1 +:+ s2)).
  cbn [String.length]. by rewrite IH.
Qed.

Lemma string_of_list_app (b1 b2 : list ascii) :
  String.string_of_list_ascii (b1 ++ b2)
  = String.string_of_list_ascii b1 +:+ String.string_of_list_ascii b2.
Proof.
  induction b1 as [|a b1 IH]; [done|].
  cbn [app String.string_of_list_ascii]. rewrite IH. done.
Qed.

Lemma string_of_list_length (b : list ascii) :
  String.length (String.string_of_list_ascii b) = length b.
Proof. induction b as [|a b IH]; [done|]. simpl. by rewrite IH. Qed.

Lemma get_elem_of (s : string) : ∀ i ch,
  String.get i s = Some ch → ch ∈ String.list_ascii_of_string s.
Proof.
  induction s as [|a s IH]; intros i ch; [done|].
  destruct i as [|i]; simpl.
  - intros [= ->]. by left.
  - intros Hget. right. by eapply IH.
Qed.

Lemma get_is_Some (s : string) : ∀ i,
  i < String.length s → is_Some (String.get i s).
Proof.
  induction s as [|a s IH]; intros i; simpl; [lia|].
  destruct i as [|i]; [eauto|]. intros Hi. apply IH. lia.
Qed.

Lemma get_charset (i : nat) :
  i < 36 → ∃ ch, String.get i charset = Some ch ∧
                 ch ∈ String.list_ascii_of_string charset.
Proof.
  intros Hi. destruct (get_is_Some charset i Hi) as [ch Hch].
  exists ch. split; [done|]. by eapply get_elem_of.
Qed.

(** The loop never panics: it fills the [n] bytes from [charset] and makes
    [n] calls of the generator. *)
Lemma fillRandom_spec (n : nat) : ∀ r,
  ∃ b, fillRandom n r = Some (b, mkRand (source r) (used r + n)) ∧
       length b = n ∧
       Forall (λ ch, ch ∈ String.list_ascii_of_string charset) b.
Proof.
  induction n as [|n IH]; intros r.
  - exists []. cbn. rewrite Nat.add_0_r. destruct r. repeat split. constructor.
  - cbn [fillRandom]. change (String.length charset) with 36. cbn [Intn].
    destruct (get_charset (source r (used r) mod 36)) as (ch & -> & Hch).
    { apply Nat.mod_upper_bound. lia. }
    destruct (IH (mkRand (source r) (S (used r)))) as (b & -> & Hlen & Hall).
    exists (ch :: b). cbn [source used]. split; [do 3 f_equal; lia|].
    split; [simpl; lia|]. by constructor.
Qed.

Lemma fillRandom_add (a b : nat) : ∀ r,
  fillRandom (a + b) r
  = match fillRandom a r with
    | Some (b1, r1) =>
        match fillRandom b r1 with
        | Some (b2, r2) => Some (b1 ++ b2, r2)
        | None => None
        end
    | None => None
    end.
Proof.
  induction a as [|a IH]; intros r.
  - cbn [Nat.add fillRandom]. by destruct (fillRandom b r) as [[b2 r2]|].
  - cbn [Nat.add fillRandom].
    destruct (Intn (String.length charset) r) as [[i r1]|]; [|done].
    destruct (String.get i charset) as [ch|]; [|done].
    rewrite IH. destruct (fillRandom a r1) as [[b1 r2]|]; [|done].
    by destruct (fillRandom b r2) as [[b2 r3]|].
Qed.

(** X15. [randomString] panics exactly on a negative length. *)
Theorem randomString_panics_iff (n : Z) (r : Rand) :
  randomString n r = None ↔ (n < 0)%Z.
Proof.
  unfold randomString. destruct (decide (n < 0)%Z) as [Hn|Hn]; [done|].
  destruct (fillRandom_spec (Z.to_nat n) r) as (b & -> & _). done.
Qed.

(** X16. For a length that is not negative, [randomString] returns a string
    of exactly that many characters, each of them one of the 36 of
    [charset], and has asked the generator once per character. *)
Theorem randomString_chars (n : Z) (r : Rand) :
  (0 ≤ n)%Z →
  ∃ s, randomString n r = Some (s, mkRand (source r) (used r + Z.to_nat n)) ∧
       String.length s = Z.to_nat n ∧
       Forall (λ ch, ch ∈ String.list_ascii_of_string charset)
              (String.list_ascii_of_string s).
Proof.
  intros Hn. unfold randomString. rewrite decide_False by lia.
  destruct (fillRandom_spec (Z.to_nat n) r) as (b & -> & Hlen & Hall).
  exists (String.string_of_list_ascii b). split; [done|].
  rewrite string_of_list_length, String.list_ascii_of_string_of_list_ascii. done.
Qed.

Lemma randomString_chars_witness :
  (0 ≤ 3)%Z ∧
  ∃ s, randomString 3 (mkRand (λ i, 10 * i + 1) 0)
       = Some (s, mkRand (λ i, 10 * i + 1) (0 + Z.to_nat 3)) ∧
       String.length s = Z.to_nat 3 ∧
       Forall (λ ch, ch ∈ String.list_ascii_of_string charset)
              (String.list_ascii_of_string s).
Proof.
  assert (H : (0 ≤ 3)%Z) by lia.
  split; [exact H|]. exact (randomString_chars 3 (mkRand (λ i, 10 * i + 1) 0) H).
Defined.

(** X17. A random string of [a + b] characters is a random string of [a]
    characters followed by one of [b] characters drawn afterwards. *)
Theorem randomString_add (a b : Z) (r : Rand) :
  (0 ≤ a)%Z → (0 ≤ b)%Z →
  randomString (a + b) r
  = match randomString a r with
    | Some (s1, r1) =>
        match randomString b r1 with
        | Some (s2, r2) => Some (s1 +:+ s2, r2)
        | None => None
        end
    | None => None
    end.
Proof.
  intros Ha Hb. unfold randomString. rewrite !decide_False by lia.
  rewrite Z2Nat.inj_add, fillRandom_add by lia.
  destruct (fillRandom (Z.to_nat a) r) as [[b1 r1]|]; [|done].
  rewrite decide_False by lia.
  destruct (fillRandom (Z.to_nat b) r1) as [[b2 r2]|]; [|done].
  by rewrite string_of_list_app.
Qed.

Lemma randomString_add_witness :
  (0 ≤ 2)%Z ∧ (0 ≤ 1)%Z ∧
  randomString (2 + 1) (mkRand (λ i, 10 * i + 1) 0) = Some ("blv", mkRand (λ i, 10 * i + 1) 3).
Proof.
  assert (Ha : (0 ≤ 2)%Z) by lia. assert (Hb : (0 ≤ 1)%Z) by lia.
  split; [exact Ha|]. split; [exact Hb|].
  exact (randomString_add 2 1 (mkRand (λ i, 10 * i + 1) 0) Ha Hb).
Defined.

(** X18. [generateName] never panics. The name is the prefix, a dash, the
    six digits of the date, a dash and ten characters of [charset]: 18
    characters more than the prefix; ten calls of the generator are made. *)
Theorem generateName_spec (prefix : string) (now : Date) (r : Rand) :
  ∃ rs,
    generateName prefix now r
    = Some (prefix +:+ "-" +:+ format010206 now +:+ "-" +:+ rs,
            mkRand (source r) (used r + 10)) ∧
    String.length rs = 10 ∧
    Forall (λ ch, ch ∈ String.list_ascii_of_string charset) (String.list_ascii_of_string rs) ∧
    String.length (prefix +:+ "-" +:+ format010206 now +:+ "-" +:+ rs)
    = String.length prefix + 18.
Proof.
  unfold generateName, randomString. rewrite decide_False by lia.
  destruct (fillRandom_spec (Z.to_nat 10) r) as (b & -> & Hlenb & Hallb).
  exists (String.string_of_list_ascii b).
  assert (Hlen : String.length (String.string_of_list_ascii b) = 10)
    by (by rewrite string_of_list_length).
  split; [done|]. split; [done|].
  split; [by rewrite String.list_ascii_of_string_of_list_ascii|].
  rewrite !string_length_app, Hlen. unfold format010206.
  rewrite !string_length_app. simpl. lia.
Qed.

End Names.

(** ** Install *)

Section InstallProps.

Variable setKubeConfig : kubeCall → option error.

Lemma installClusters_runCalls (project kubeconfig : string)
    (clusters : list InstanceInfo) :
  installClusters setKubeConfig project kubeconfig clusters
  = runCalls setKubeConfig
      ((λ c, mkKubeCall project (Zone c) (Name c) kubeconfig) <$> clusters).
Proof.
  induction clusters as [|c rest IH]; [done|].
  cbn [installClusters]. rewrite fmap_cons. cbn [runCalls].
  destruct (setKubeConfig _); [done|]. by rewrite IH.
Qed.

Lemma runCalls_app (ks1 ks2 : list kubeCall) :
  runCalls setKubeConfig (ks1 ++ ks2)
  = match runCalls setKubeConfig ks1 with
    | (ks, Some err) => (ks, Some err)
    | (ks, None) =>
        let '(ks', e) := runCalls setKubeConfig ks2 in (ks ++ ks', e)
    end.
Proof.
  induction ks1 as [|k rest IH]; cbn [app runCalls].
  - by destruct (runCalls setKubeConfig ks2).
  - destruct (setKubeConfig k); [done|]. rewrite IH.
    destruct (runCalls setKubeConfig rest) as [ks [e|]]; [done|].
    by destruct (runCalls setKubeConfig ks2).
Qed.

Lemma kubeCalls_cons (e : string * ProjectInfo)
    (rest : list (string * ProjectInfo)) (kubeconfig : string) :
  kubeCalls (e :: rest) kubeconfig
  = ((λ c, mkKubeCall e.1 (Zone c) (Name c) kubeconfig) <$> Clusters e.2)
    ++ kubeCalls rest kubeconfig.
Proof. reflexivity. Qed.

Lemma Install_runCalls (r : list (string * ProjectInfo)) (kubeconfig : string) :
  Install setKubeConfig r kubeconfig
  = runCalls setKubeConfig (kubeCalls r kubeconfig).
Proof.
  induction r as [|[project pi] rest IH]; [done|].
  cbn [Install]. rewrite kubeCalls_cons.
  rewrite runCalls_app, installClusters_runCalls, IH. done.
Qed.

Lemma runCalls_all (ks : list kubeCall) :
  Forall (λ k, setKubeConfig k = None) ks →
  runCalls setKubeConfig ks = (ks, None).
Proof.
  intros Hall. induction Hall as [|k ks Hk _ IH]; [done|].
  cbn [runCalls]. by rewrite Hk, IH.
Qed.

(** X19. When no call fails, [Install] returns nil after exactly one call of
    [SetKubeConfig] per cluster of the inventory, in the order it visits
    the projects and the clusters of each, with the project of the entry,
    the zone and the name of the cluster and the file it was given; no call
    is made for a VM. *)
Theorem Install_all (r : list (string * ProjectInfo)) (kubeconfig : string) :
  Forall (λ k, setKubeConfig k = None) (kubeCalls r kubeconfig) →
  Install setKubeConfig r kubeconfig = (kubeCalls r kubeconfig, None).
Proof. intros Hall. rewrite Install_runCalls. by apply runCalls_all. Qed.

(** X20. [Install] stops at the first call that fails: it returns the error
    of that call, and makes none of the calls that come after it. *)
Theorem Install_stops_at_first_error (r : list (string * ProjectInfo))
    (kubeconfig : string) (before after : list kubeCall) (k : kubeCall)
    (err : error) :
  kubeCalls r kubeconfig = before ++ k :: after →
  Forall (λ k', setKubeConfig k' = None) before →
  setKubeConfig k = Some err →
  Install setKubeConfig r kubeconfig = (before ++ [k], Some err).
Proof.
  intros Hcalls Hbefore Hk. rewrite Install_runCalls, Hcalls. clear Hcalls.
  induction Hbefore as [|k' ks Hk' _ IH]; cbn [app runCalls].
  - by rewrite Hk.
  - by rewrite Hk', IH.
Qed.

Lemma kubeCalls_length (r : list (string * ProjectInfo)) (kubeconfig : string) :
  length (kubeCalls r kubeconfig)
  = foldr (λ e n, length (Clusters e.2) + n) 0 r.
Proof.
  induction r as [|e rest IH]; [done|].
  rewrite kubeCalls_cons. cbn [foldr].
  by rewrite length_app, length_fmap, IH.
Qed.

Lemma foldr_clusters_perm (r1 r2 : list (string * ProjectInfo)) :
  r1 ≡ₚ r2 →
  foldr (λ e n, length (Clusters e.2) + n) 0 r1
  = foldr (λ e n, length (Clusters e.2) + n) 0 r2.
Proof.
  induction 1 as [|e r1 r2 _ IH|e1 e2 r|r1 r2 r3 _ IH1 _ IH2]; simpl; lia.
Qed.

Lemma kubeCalls_count (info : ResourceInfo) (r : list (string * ProjectInfo))
    (kubeconfig : string) :
  r ≡ₚ map_to_list info →
  length (kubeCalls r kubeconfig) = totalClusters info.
Proof.
  intros Hperm. rewrite kubeCalls_length, (foldr_clusters_perm _ _ Hperm).
  unfold totalClusters. rewrite map_fold_foldr.
  generalize (map_to_list info). intros l.
  induction l as [|[k pi] l IH]; simpl; [done|]. by rewrite IH.
Qed.

(** X21. Whatever the order in which it visits the projects, an [Install]
    in which no call fails makes as many calls as the inventory has
    clusters, all on the file it was given. *)
Theorem Install_one_call_per_cluster (info : ResourceInfo)
    (r : list (string * ProjectInfo)) (kubeconfig : string) :
  r ≡ₚ map_to_list info →
  (∀ k, setKubeConfig k = None) →
  (Install setKubeConfig r kubeconfig).2 = None ∧
  length (Install setKubeConfig r kubeconfig).1 = totalClusters info ∧
  Forall (λ k, kcFile k = kubeconfig) (Install setKubeConfig r kubeconfig).1.
Proof.
  intros Hperm Hset.
  rewrite Install_runCalls, runCalls_all by (apply Forall_forall; auto).
  cbn [fst snd]. split; [done|]. split.
  - rewrite kubeCalls_length, (foldr_clusters_perm _ _ Hperm).
    unfold totalClusters. rewrite map_fold_foldr.
    generalize (map_to_list info). intros l.
    induction l as [|[k pi] l IH]; simpl; [done|]. by rewrite IH.
  - clear Hperm. induction r as [|e rest IH]; [constructor|].
    rewrite kubeCalls_cons.
    apply Forall_app. split; [|exact IH].
    apply Forall_fmap, Forall_forall. done.
Qed.

End InstallProps.

Lemma Install_all_witness :
  Forall (λ k, (λ _ : kubeCall, @None error) k = None)
    (kubeCalls [("proj-1", mkProjectInfo [mkInstance "cluster" "us-a"]
                                          [mkInstance "vm" "us-b"])]
               "/tmp/kubeconfig") ∧
  Install (λ _, None)
    [("proj-1", mkProjectInfo [mkInstance "cluster" "us-a"]
                              [mkInstance "vm" "us-b"])] "/tmp/kubeconfig"
  = ([mkKubeCall "proj-1" "us-a" "cluster" "/tmp/kubeconfig"], None).
Proof.
  assert (H : Forall (λ k, (λ _ : kubeCall, @None error) k = None)
    (kubeCalls [("proj-1", mkProjectInfo [mkInstance "cluster" "us-a"]
                                          [mkInstance "vm" "us-b"])]
               "/tmp/kubeconfig")).
  { repeat constructor. }
  split; [exact H|]. exact (Install_all (λ _, None) _ _ H).
Defined.

Lemma Install_stops_at_first_error_witness :
  Install (λ k, if decide (kcCluster k = "c2")
                then Some (ErrExternal "no credentials") else None)
    [("proj-1", mkProjectInfo [mkInstance "c1" "us-a"; mkInstance "c2" "us-b";
                               mkInstance "c3" "us-a"] [])]
    "/tmp/kubeconfig"
  = ([mkKubeCall "proj-1" "us-a" "c1" "/tmp/kubeconfig"]
       ++ [mkKubeCall "proj-1" "us-b" "c2" "/tmp/kubeconfig"],
     Some (ErrExternal "no credentials")).
Proof.
  refine (Install_stops_at_first_error _ _ _
            [mkKubeCall "proj-1" "us-a" "c1" "/tmp/kubeconfig"]
            [mkKubeCall "proj-1" "us-a" "c3" "/tmp/kubeconfig"]
            (mkKubeCall "proj-1" "us-b" "c2" "/tmp/kubeconfig")
            (ErrExternal "no credentials") _ _ _).
  - reflexivity.
  - repeat constructor.
  - reflexivity.
Defined.

Lemma Install_one_call_per_cluster_witness :
  length (Install (λ _, None)
            (map_to_list ({["proj-1" := mkProjectInfo [mkInstance "c" "us-a"]
                                                     [mkInstance "v" "us-b"]]}
                          : ResourceInfo)) "/tmp/kubeconfig").1
  = totalClusters {["proj-1" := mkProjectInfo [mkInstance "c" "us-a"]
                                             [mkInstance "v" "us-b"]]}.
Proof.
  exact (proj1 (proj2 (Install_one_call_per_cluster (λ _, None)
           {["proj-1" := mkProjectInfo [mkInstance "c" "us-a"]
                                       [mkInstance "v" "us-b"]]}
           _ "/tmp/kubeconfig" (reflexivity _) (λ _, eq_refl)))).
Defined.

(** ** Construct *)

Section ConstructProps.

Variable w : World.
Variable host : Host.
Variable rc : resourceConfigs.
Variable res : Resource.
Variable types : nat.
Variable h : heap.

(** The run of [Construct] once [construct] has handed back an error. *)
Lemma Construct_after_error (ud : option UserData)
    (info : option ResourceInfo) (e : error) :
  r_outcome (construct w rc res types h) = Returned ud info (Some e) →
  Construct w host rc res types h
  = mkCrun (Gave None (Some e)) [] (construct w rc res types h).
Proof.
  intros Hout. unfold Construct. rewrite Hout.
  by apply construct_error_alone in Hout as [-> ->].
Qed.

(** The runs of [Construct] once [construct] has handed back its inventory. *)
Lemma Construct_after_success (i : ResourceInfo) :
  r_outcome (construct w rc res types h)
  = Returned (Some {[ResourceConfigType := i]}) (Some i) None →
  Construct w host rc res types h
  = match getTempFile host "kubeconfig" with
    | (evs, inr err) =>
        mkCrun (Gave None (Some err)) evs (construct w rc res types h)
    | (evs, inl kubeconfig) =>
        match Install (setKubeConfigOn host) (rangeOrder host i) kubeconfig with
        | (ks, Some err) =>
            mkCrun (Gave None (Some err))
                   (evs ++ (Kube <$> ks) ++ [Removed kubeconfig])
                   (construct w rc res types h)
        | (ks, None) =>
            match readFile host kubeconfig with
            | inr err =>
                mkCrun (Gave None (Some err))
                       (evs ++ (Kube <$> ks)
                            ++ [Read kubeconfig; Removed kubeconfig])
                       (construct w rc res types h)
            | inl data =>
                match storeText host data with
                | Some err =>
                    mkCrun (Gave None (Some err))
                           (evs ++ (Kube <$> ks)
                                ++ [Read kubeconfig; Removed kubeconfig])
                           (construct w rc res types h)
                | None =>
                    mkCrun
                      (Gave (Some (<[KubeConfigKey := UdText data]>
                                     {[ResourceConfigType := UdInventory i]}))
                            None)
                      (evs ++ (Kube <$> ks)
                           ++ [Read kubeconfig; Removed kubeconfig])
                      (construct w rc res types h)
                end
            end
        end
    end.
Proof.
  intros Hout. unfold Construct. rewrite Hout.
  destruct (getTempFile host "kubeconfig") as [evs [kubeconfig|err]]; [|done].
  destruct (Install _ _ _) as [ks [err|]]; [done|].
  destruct (readFile host kubeconfig) as [data|err]; [|done].
  destruct (storeText host data); [done|].
  unfold asFull. by rewrite map_fmap_singleton.
Qed.

Lemma Construct_cases :
  (∃ ud info e, r_outcome (construct w rc res types h)
                = Returned ud info (Some e)) ∨
  (∃ i, r_outcome (construct w rc res types h)
        = Returned (Some {[ResourceConfigType := i]}) (Some i) None) ∨
  r_outcome (construct w rc res types h) = Panicked ∨
  r_outcome (construct w rc res types h) = Blocked.
Proof.
  destruct (r_outcome (construct w rc res types h)) as [ud info [e|]| |] eqn:Hout;
    [left; eauto| |auto|auto].
  right. left. apply construct_success_both in Hout as (i & -> & ->). eauto.
Qed.

(** X22. An error of [construct] is the error of [Construct], with no user
    data; no file is created and no cluster credential is asked for. *)
Theorem Construct_passes_error (ud : option UserData)
    (info : option ResourceInfo) (e : error) :
  r_outcome (construct w rc res types h) = Returned ud info (Some e) →
  c_result (Construct w host rc res types h) = Gave None (Some e) ∧
  c_events (Construct w host rc res types h) = [].
Proof.
  intros Hout. by rewrite (Construct_after_error _ _ _ Hout).
Qed.

(** X23. When [Construct] hands back user data, it hands back no error;
    [construct] had succeeded, and the user data holds two things: under
    [ResourceConfigType] the inventory of [construct], under [KubeConfigKey]
    the text read from the temporary file. Before reading the file it has
    visited every project of the inventory once, in the order the runtime
    chose, and made one [SetKubeConfig] call per cluster of the inventory,
    all on that file: as many calls as the inventory has clusters. *)
Theorem Construct_success (ud : FullUserData) (err : option error) :
  c_result (Construct w host rc res types h) = Gave (Some ud) err →
  err = None ∧
  ∃ i path data,
    r_outcome (construct w rc res types h)
    = Returned (Some {[ResourceConfigType := i]}) (Some i) None ∧
    readFile host path = inl data ∧
    ud !! ResourceConfigType = Some (UdInventory i) ∧
    ud !! KubeConfigKey = Some (UdText data) ∧
    dom ud = {[ResourceConfigType; KubeConfigKey]} ∧
    rangeOrder host i ≡ₚ map_to_list i ∧
    length (kubeCalls (rangeOrder host i) path) = totalClusters i ∧
    c_events (Construct w host rc res types h)
    = [Created path] ++ (Kube <$> kubeCalls (rangeOrder host i) path)
        ++ [Read path; Removed path].
Proof.
  destruct Construct_cases as [(ud' & info & e & Hout)|[(i & Hout)|[Hout|Hout]]].
  - by rewrite (Construct_after_error _ _ _ Hout).
  - rewrite (Construct_after_success i Hout). unfold getTempFile.
    destruct (tempFile host "kubeconfig") as [path|e]; [|done].
    destruct (closeFile host path); [done|].
    destruct (Install _ _ _) as [ks [e|]] eqn:Hinst; [done|].
    destruct (readFile host path) as [data|e] eqn:Hread; [|done].
    destruct (storeText host data); [done|]. cbn [c_result c_events].
    intros [= <- <-]. split; [done|]. exists i, path, data.
    assert (Hperm : rangeOrder host i ≡ₚ map_to_list i)
      by apply visitOrder_perm.
    split; [done|]. split; [done|].
    split; [by rewrite lookup_insert_ne, lookup_singleton_eq|].
    split; [by rewrite lookup_insert_eq|].
    split; [rewrite dom_insert_L, dom_singleton_L; set_solver|].
    split; [done|]. split; [by apply kubeCalls_count|].
    rewrite Install_runCalls in Hinst.
    assert (Hks : ks = kubeCalls (rangeOrder host i) path); [|by rewrite Hks].
    revert ks Hinst. generalize (kubeCalls (rangeOrder host i) path).
    intros l. induction l as [|k l IH]; intros ks; cbn [runCalls].
    + by intros [= <-].
    + destruct (setKubeConfigOn host k); [done|].
      destruct (runCalls (setKubeConfigOn host) l) as [ks' e'].
      intros [= <- ->]. f_equal. by apply IH.
  - unfold Construct. by rewrite Hout.
  - unfold Construct. by rewrite Hout.
Qed.

(** X24. What [Construct] returns is all or nothing: user data and no
    error, or an error and no user data. *)
Theorem Construct_all_or_nothing (ud : option FullUserData)
    (err : option error) :
  c_result (Construct w host rc res types h) = Gave ud err →
  (is_Some ud ∧ err = None) ∨ (ud = None ∧ is_Some err).
Proof.
  destruct Construct_cases as [(ud' & info & e & Hout)|[(i & Hout)|[Hout|Hout]]].
  - rewrite (Construct_after_error _ _ _ Hout). intros [= <- <-]. eauto.
  - rewrite (Construct_after_success i Hout).
    destruct (getTempFile host "kubeconfig") as [evs [path|e]];
      [|intros [= <- <-]; eauto].
    destruct (Install _ _ _) as [ks [e|]]; [intros [= <- <-]; eauto|].
    destruct (readFile host path) as [data|e]; [|intros [= <- <-]; eauto].
    destruct (storeText host data); intros [= <- <-]; eauto.
  - unfold Construct. by rewrite Hout.
  - unfold Construct. by rewrite Hout.
Qed.

(** X25. [Construct] adds no panic and no deadlock of its own: it panics
    exactly when [construct] does, and stays blocked exactly when
    [construct] does. *)
Theorem Construct_panics_iff :
  (c_result (Construct w host rc res types h) = Panics ↔
   r_outcome (construct w rc res types h) = Panicked) ∧
  (c_result (Construct w host rc res types h) = Blocks ↔
   r_outcome (construct w rc res types h) = Blocked).
Proof.
  destruct Construct_cases as [(ud' & info & e & Hout)|[(i & Hout)|[Hout|Hout]]].
  - rewrite (Construct_after_error _ _ _ Hout), Hout. done.
  - rewrite (Construct_after_success i Hout), Hout.
    destruct (getTempFile host "kubeconfig") as [evs [path|e]]; [|done].
    destruct (Install _ _ _) as [ks [e|]]; [done|].
    destruct (readFile host path) as [data|e]; [|done].
    by destruct (storeText host data).
  - unfold Construct. by rewrite Hout.
  - unfold Construct. by rewrite Hout.
Qed.

(** X26. The temporary file: once [Construct] has created it, it touches no
    other file; the last thing it does is to remove it, whether it then
    succeeds or fails, unless closing the new file failed, in which case the
    file is left behind and nothing else is done. *)
Theorem Construct_temp_file (path : string) :
  Created path ∈ c_events (Construct w host rc res types h) →
  Forall (eventOn path) (c_events (Construct w host rc res types h)) ∧
  (closeFile host path = None →
   last (c_events (Construct w host rc res types h)) = Some (Removed path)) ∧
  (is_Some (closeFile host path) →
   c_events (Construct w host rc res types h) = [Created path]).
Proof.
  assert (Hkube : ∀ ks i p, (Install (setKubeConfigOn host) (rangeOrder host i) p).1 = ks →
                            Forall (eventOn p) (Kube <$> ks)).
  { intros ks i p <-. rewrite Install_runCalls.
    assert (Hall : Forall (λ k, kcFile k = p) (kubeCalls (rangeOrder host i) p)).
    { induction (rangeOrder host i) as [|e rest IH]; [constructor|].
      rewrite kubeCalls_cons. apply Forall_app. split; [|exact IH].
      apply Forall_fmap, Forall_forall. done. }
    revert Hall. generalize (kubeCalls (rangeOrder host i) p). intros l Hall.
    induction Hall as [|k l Hk _ IH]; [constructor|]. cbn [runCalls].
    destruct (setKubeConfigOn host k).
    - cbn. by repeat constructor.
    - destruct (runCalls (setKubeConfigOn host) l) as [ks' e'].
      cbn [fst] in *. rewrite fmap_cons. by constructor. }
  destruct Construct_cases as [(ud' & info & e & Hout)|[(i & Hout)|[Hout|Hout]]].
  - rewrite (Construct_after_error _ _ _ Hout). cbn. by intros ?%not_elem_of_nil.
  - rewrite (Construct_after_success i Hout). unfold getTempFile.
    destruct (tempFile host "kubeconfig") as [p|e];
      [|cbn; by intros ?%not_elem_of_nil].
    assert (Hcases : ∀ evs : list event,
              Forall (eventOn p) evs →
              Created path ∈ [Created p] ++ evs ++ [Removed p] →
              closeFile host p = None →
              Forall (eventOn path) ([Created p] ++ evs ++ [Removed p]) ∧
              (closeFile host path = None →
               last ([Created p] ++ evs ++ [Removed p]) = Some (Removed path)) ∧
              (is_Some (closeFile host path) →
               [Created p] ++ evs ++ [Removed p] = [Created path])).
    { intros evs Hevs Hin Hclose.
      assert (Hp : path = p).
      { apply elem_of_app in Hin as [Hin|Hin].
        - apply list_elem_of_singleton in Hin. by injection Hin.
        - apply elem_of_app in Hin as [Hin|Hin].
          + rewrite Forall_forall in Hevs. by apply Hevs in Hin.
          + apply list_elem_of_singleton in Hin. done. }
      subst p. split; [|split].
      - apply Forall_app. split; [by repeat constructor|].
        apply Forall_app. split; [done|]. by repeat constructor.
      - intros _. by rewrite app_assoc, last_snoc.
      - intros [e He]. congruence. }
    destruct (closeFile host p) as [e|] eqn:Hclose.
    { cbn [c_events]. intros Hin. apply list_elem_of_singleton in Hin.
      injection Hin as ->. split; [by repeat constructor|].
      split; [congruence|done]. }
    destruct (Install _ _ _) as [ks [e|]] eqn:Hinst.
    + cbn [c_events]. intros Hin. apply (Hcases (Kube <$> ks)); [|done|done].
      apply (Hkube ks i p). by rewrite Hinst.
    + assert (Hks : Forall (eventOn p) (Kube <$> ks)).
      { apply (Hkube ks i p). by rewrite Hinst. }
      assert (Hmid : Forall (eventOn p) ((Kube <$> ks) ++ [Read p])).
      { apply Forall_app. split; [done|]. by repeat constructor. }
      assert (Hshape : ∀ l : list event,
                l ++ [Read p; Removed p] = (l ++ [Read p]) ++ [Removed p]).
      { intros l. by rewrite <- app_assoc. }
      destruct (readFile host p) as [data|e];
        [destruct (storeText host data)|]; cbn [c_events];
        rewrite Hshape; intros Hin; by apply Hcases.
  - unfold Construct. rewrite Hout. cbn. by intros ?%not_elem_of_nil.
  - unfold Construct. rewrite Hout. cbn. by intros ?%not_elem_of_nil.
Qed.

End ConstructProps.

Lemma Construct_passes_error_witness :
  r_outcome (construct (worldOf quotaClient) oneOfEach projOne 0 onePool)
  = Returned None None (Some (ErrExternal "quota exceeded")) ∧
  c_result (Construct (worldOf quotaClient) calmHost oneOfEach projOne 0 onePool)
  = Gave None (Some (ErrExternal "quota exceeded")) ∧
  c_events (Construct (worldOf quotaClient) calmHost oneOfEach projOne 0 onePool)
  = [].
Proof.
  assert (Hout : r_outcome (construct (worldOf quotaClient) oneOfEach projOne 0 onePool)
                 = Returned None None (Some (ErrExternal "quota exceeded")))
    by (vm_compute; reflexivity).
  split; [exact Hout|].
  exact (Construct_passes_error _ calmHost _ _ _ _ _ _ _ Hout).
Defined.

Lemma Construct_success_witness :
  c_result (Construct (worldOf echoClient) calmHost oneOfEach projOne 0 onePool)
  = Gave (Some (<[KubeConfigKey := UdText "contexts"]>
                  {[ResourceConfigType :=
                      UdInventory
                        {["proj-1" := mkProjectInfo [mkInstance "cluster" "us-a"]
                                                    [mkInstance "vm" "us-b"]]}]}))
         None ∧
  ∃ i path data,
    r_outcome (construct (worldOf echoClient) oneOfEach projOne 0 onePool)
    = Returned (Some {[ResourceConfigType := i]}) (Some i) None ∧
    readFile calmHost path = inl data ∧
    (<[KubeConfigKey := UdText "contexts"]>
       {[ResourceConfigType :=
           UdInventory
             {["proj-1" := mkProjectInfo [mkInstance "cluster" "us-a"]
                                         [mkInstance "vm" "us-b"]]}]}
     : FullUserData) !! ResourceConfigType = Some (UdInventory i) ∧
    (<[KubeConfigKey := UdText "contexts"]>
       {[ResourceConfigType :=
           UdInventory
             {["proj-1" := mkProjectInfo [mkInstance "cluster" "us-a"]
                                         [mkInstance "vm" "us-b"]]}]}
     : FullUserData) !! KubeConfigKey = Some (UdText data) ∧
    dom (<[KubeConfigKey := UdText "contexts"]>
           {[ResourceConfigType :=
               UdInventory
                 {["proj-1" := mkProjectInfo [mkInstance "cluster" "us-a"]
                                             [mkInstance "vm" "us-b"]]}]}
         : FullUserData) = {[ResourceConfigType; KubeConfigKey]} ∧
    rangeOrder calmHost i ≡ₚ map_to_list i ∧
    length (kubeCalls (rangeOrder calmHost i) path) = totalClusters i ∧
    c_events (Construct (worldOf echoClient) calmHost oneOfEach projOne 0 onePool)
    = [Created path] ++ (Kube <$> kubeCalls (rangeOrder calmHost i) path)
        ++ [Read path; Removed path].
Proof.
  assert (Hres :
    c_result (Construct (worldOf echoClient) calmHost oneOfEach projOne 0 onePool)
    = Gave (Some (<[KubeConfigKey := UdText "contexts"]>
                    {[ResourceConfigType :=
                        UdInventory
                          {["proj-1" := mkProjectInfo [mkInstance "cluster" "us-a"]
                                                      [mkInstance "vm" "us-b"]]}]}))
           None) by (vm_compute; reflexivity).
  split; [exact Hres|].
  exact (proj2 (Construct_success _ _ _ _ _ _ _ _ Hres)).
Defined.

Lemma Construct_all_or_nothing_witness :
  c_result (Construct (worldOf quotaClient) calmHost oneOfEach projOne 0 onePool)
  = Gave None (Some (ErrExternal "quota exceeded")) ∧
  ((is_Some (None : option FullUserData) ∧
    Some (ErrExternal "quota exceeded") = None) ∨
   ((None : option FullUserData) = None ∧
    is_Some (Some (ErrExternal "quota exceeded")))).
Proof.
  assert (Hres :
    c_result (Construct (worldOf quotaClient) calmHost oneOfEach projOne 0 onePool)
    = Gave None (Some (ErrExternal "quota exceeded")))
    by (vm_compute; reflexivity).
  split; [exact Hres|].
  exact (Construct_all_or_nothing _ _ _ _ _ _ _ _ Hres).
Defined.

Lemma Construct_temp_file_witness :
  Created "/tmp/kubeconfig1"
  ∈ c_events (Construct (worldOf echoClient) calmHost oneOfEach projOne 0 onePool) ∧
  (closeFile calmHost "/tmp/kubeconfig1" = None →
   last (c_events (Construct (worldOf echoClient) calmHost oneOfEach projOne 0 onePool))
   = Some (Removed "/tmp/kubeconfig1")).
Proof.
  assert (Hin : Created "/tmp/kubeconfig1"
    ∈ c_events (Construct (worldOf echoClient) calmHost oneOfEach projOne 0 onePool)).
  { vm_compute. left. }
  split; [exact Hin|].
  exact (proj1 (proj2 (Construct_temp_file _ _ _ _ _ _ _ Hin))).
Defined.

End Gcp.
